(** * hedera-sdk-go: query execution, mirror-node enrichment and key text encoding

    A shallow embedding of the parts of the SDK that the specification's
    properties talk about:

    - [GoStrings], [Hex] : the functions of Go's [strings] and [encoding/hex]
                      packages that the SDK calls;
    - [Keys]          : [PrivateKey]/[PublicKey] text encoding (hex with the
                      ed25519 DER prefixes) and its inverse;
    - [Mirror]        : the mirror-node gateway ([fetchMirrorNodeUrlFromClient],
                      [makeGetRequest]);
    - [ContractQuery] : [ContractInfoQuery.Execute] and its token-relationship
                      enrichment;
    - [Engine]        : the retry loop's backoff schedule;
    - [AccountInfo]   : [AccountInfoQuery.GetCost], [Execute] and the backoff
                      setters.

    Go values are modelled as follows.  [int64]/[time.Duration] are [Z];
    [uint64] is a [Z] in [0, 2^64) and the conversion [int64(x)] is written
    out with its wrap-around.  A [string] is a [string] of 8-bit [ascii]
    (Go strings are byte sequences), a [[]byte] is a [list byte], a
    [map[string]interface{}] is a [gmap string Json].  A pointer that may be
    nil is an [option].  A [(T, error)] result is a [Result]; a run-time
    panic is an explicit [Panicked] outcome.  Code of the SDK that lives in
    other files is a [Variable] of the section that uses it. *)

From Stdlib Require Import ZArith NArith Lia Bool Ascii String List Sorted.
From Stdlib.Strings Require Import Byte.
From stdpp Require Import base option list strings gmap.

Local Open Scope string_scope.

(** ** Go outcomes *)

(** [(T, error)] with the usual convention that the value is meaningful only
    when the error is nil. *)
Inductive Result (E A : Type) : Type :=
| Ok (a : A)
| Err (e : E).
Arguments Ok {E A} a.
Arguments Err {E A} e.

(** Run-time panics the modelled code can raise. *)
Inductive Panic : Type :=
| PanicMsg (msg : string)          (* panic("...") *)
| NilDereference                   (* invalid memory address or nil pointer dereference *)
| IndexOutOfRange                  (* index out of range *)
| SliceBoundsOutOfRange.           (* slice bounds out of range *)

Inductive Outcome (A : Type) : Type :=
| Returned (a : A)
| Panicked (p : Panic).
Arguments Returned {A} a.
Arguments Panicked {A} p.

(** ** Package [strings] *)

Module GoStrings.

(** [strings.HasPrefix(s, prefix)]:
    [len(s) >= len(prefix) && s[:len(prefix)] == prefix]. *)
Definition HasPrefix (s prefix : string) : bool := String.prefix prefix s.

Fixpoint drop_bytes (n : nat) (s : string) : string :=
  match n, s with
  | O, _ => s
  | S n', String _ s' => drop_bytes n' s'
  | S _, EmptyString => EmptyString
  end.

(** [strings.TrimPrefix(s, prefix)]:
    [if HasPrefix(s, prefix) { return s[len(prefix):] }; return s]. *)
Definition TrimPrefix (s prefix : string) : string :=
  if HasPrefix s prefix then drop_bytes (String.length prefix) s else s.

(** [strings.Contains(s, substr)]: [substr] occurs at some offset of [s]. *)
Fixpoint Contains (s substr : string) : bool :=
  HasPrefix s substr ||
  match s with
  | EmptyString => false
  | String _ s' => Contains s' substr
  end.

(** ASCII lower-casing of one byte: ['A'..'Z'] gain 32. *)
Definition lower_byte (c : ascii) : ascii :=
  let n := N_of_ascii c in
  if (65 <=? n)%N && (n <=? 90)%N then ascii_of_N (n + 32) else c.

(** [strings.ToLower] on the ASCII range.  Bytes above 0x7f (where Go
    applies Unicode case mapping rune by rune) are left as they are; no
    string produced by the encoders below contains such a byte. *)
Fixpoint ToLower (s : string) : string :=
  match s with
  | EmptyString => EmptyString
  | String c s' => String (lower_byte c) (ToLower s')
  end.

Lemma HasPrefix_app p s : HasPrefix (p ++ s) p = true.
Proof.
  unfold HasPrefix. induction p as [|c p IH]; simpl.
  - now destruct s.
  - destruct (ascii_dec c c); [exact IH | congruence].
Qed.

Lemma drop_bytes_app p s : drop_bytes (String.length p) (p ++ s) = s.
Proof. induction p as [|c p IH]; simpl; [reflexivity | exact IH]. Qed.

Lemma TrimPrefix_app p s : TrimPrefix (p ++ s) p = s.
Proof. unfold TrimPrefix. now rewrite HasPrefix_app, drop_bytes_app. Qed.

Lemma ToLower_app s t : ToLower (s ++ t) = ToLower s ++ ToLower t.
Proof. induction s as [|c s IH]; simpl; [reflexivity | now rewrite IH]. Qed.

Lemma length_app s t : String.length (s ++ t) = String.length s + String.length t.
Proof. induction s as [|c s IH]; simpl; [reflexivity | now rewrite IH]. Qed.

End GoStrings.

(** ** Package [encoding/hex] *)

Module Hex.

Inductive HexError : Type :=
| ErrLength                      (* odd length hex string *)
| InvalidByteError (c : ascii).  (* invalid byte *)

Definition hextable : string := "0123456789abcdef".

Definition hexdigit (n : N) : ascii :=
  match String.get (N.to_nat n) hextable with
  | Some c => c
  | None => "0"%char
  end.

(** [EncodeToString]: every byte [v] becomes [hextable[v>>4]],
    [hextable[v&0x0f]]. *)
Fixpoint EncodeToString (src : list byte) : string :=
  match src with
  | [] => EmptyString
  | v :: rest =>
      String (hexdigit (N.shiftr (Byte.to_N v) 4))
        (String (hexdigit (N.land (Byte.to_N v) 15)) (EncodeToString rest))
  end.

(** [fromHexChar]: digits and both letter cases are accepted. *)
Definition fromHexChar (c : ascii) : option N :=
  let n := N_of_ascii c in
  if (48 <=? n)%N && (n <=? 57)%N then Some (n - 48)%N
  else if (97 <=? n)%N && (n <=? 102)%N then Some (n - 97 + 10)%N
  else if (65 <=? n)%N && (n <=? 70)%N then Some (n - 65 + 10)%N
  else None.

Definition byte_of_nibbles (hi lo : N) : byte :=
  match Byte.of_N (N.lor (N.shiftl hi 4) lo) with
  | Some b => b
  | None => x00
  end.

(** [DecodeString]: pairs of hex characters, an invalid character or a
    trailing odd character is an error. *)
Fixpoint DecodeString (s : string) : Result HexError (list byte) :=
  match s with
  | EmptyString => Ok []
  | String a EmptyString =>
      match fromHexChar a with
      | Some _ => Err ErrLength
      | None => Err (InvalidByteError a)
      end
  | String a (String b rest) =>
      match fromHexChar a with
      | None => Err (InvalidByteError a)
      | Some hi =>
          match fromHexChar b with
          | None => Err (InvalidByteError b)
          | Some lo =>
              match DecodeString rest with
              | Ok bs => Ok (byte_of_nibbles hi lo :: bs)
              | Err e => Err e
              end
          end
      end
  end.

Lemma decode_encode_byte (v : byte) :
  fromHexChar (hexdigit (N.shiftr (Byte.to_N v) 4)) = Some (N.shiftr (Byte.to_N v) 4)
  /\ fromHexChar (hexdigit (N.land (Byte.to_N v) 15)) = Some (N.land (Byte.to_N v) 15)
  /\ byte_of_nibbles (N.shiftr (Byte.to_N v) 4) (N.land (Byte.to_N v) 15) = v.
Proof. destruct v; vm_compute; repeat split. Qed.

Lemma lower_hexdigit (v : byte) :
  GoStrings.lower_byte (hexdigit (N.shiftr (Byte.to_N v) 4)) = hexdigit (N.shiftr (Byte.to_N v) 4)
  /\ GoStrings.lower_byte (hexdigit (N.land (Byte.to_N v) 15)) = hexdigit (N.land (Byte.to_N v) 15).
Proof. destruct v; vm_compute; split; reflexivity. Qed.

Lemma DecodeString_EncodeToString (bs : list byte) :
  DecodeString (EncodeToString bs) = Ok bs.
Proof.
  induction bs as [|v bs IH]; [reflexivity|].
  destruct (decode_encode_byte v) as (Hhi & Hlo & Hb).
  cbn [EncodeToString DecodeString].
  now rewrite Hhi, Hlo, IH, Hb.
Qed.

Lemma ToLower_EncodeToString (bs : list byte) :
  GoStrings.ToLower (EncodeToString bs) = EncodeToString bs.
Proof.
  induction bs as [|v bs IH]; [reflexivity|].
  destruct (lower_hexdigit v) as (Hhi & Hlo).
  cbn [EncodeToString GoStrings.ToLower].
  now rewrite Hhi, Hlo, IH.
Qed.

Lemma length_EncodeToString (bs : list byte) :
  String.length (EncodeToString bs) = 2 * length bs.
Proof. induction bs as [|v bs IH]; simpl; [reflexivity | rewrite IH; lia]. Qed.

End Hex.

(** ** Keys: text encoding of ed25519 keys *)

Module Keys.

Definition ed25519PrivateKeyPrefix : string := "302e020100300506032b657004220420".
Definition ed25519PubKeyPrefix : string := "302a300506032b6570032100".

(** The errors of this file: [newErrBadKeyf] with its format and arguments,
    and the errors [hex.DecodeString] passes through. *)
Inductive KeyError : Type :=
| ErrBadKeyPrivateLength (n : nat)              (* invalid private key length: %v bytes *)
| ErrBadKeyPrivateString (n : nat)              (* invalid private key string with length %v *)
| ErrBadKeyPublicString (s : string) (n : nat)  (* invalid public key '%v' string with length %v *)
| ErrBadKeyPublicLength (n : nat)               (* invalid public key length: %v bytes *)
| ErrHex (e : Hex.HexError).

(** [PrivateKey]: [keyData] is the 64-byte ed25519 private key (seed followed
    by public key); [chainCode] is nil unless the key came from a mnemonic. *)
Record PrivateKey : Type := mkPrivateKey {
  sk_keyData : list byte;
  sk_chainCode : option (list byte)
}.

Record PublicKey : Type := mkPublicKey {
  pk_keyData : list byte
}.

Section Ed25519.

(** The public key bytes ed25519 derives from a 32-byte seed (SHA-512 and a
    scalar multiplication on the curve); its value is irrelevant here. *)
Variable ed25519_publicKey : list byte -> list byte.

(** [ed25519.NewKeyFromSeed]: the private key is the seed followed by the
    public key.  (The library panics on a seed that is not 32 bytes long;
    its only caller below passes [bytes[0:32]].) *)
Definition NewKeyFromSeed (seed : list byte) : list byte :=
  seed ++ ed25519_publicKey seed.

Definition PrivateKeyFromBytes (bytes : list byte) : Result KeyError PrivateKey :=
  let length := length bytes in
  if negb (length =? 32)%nat && negb (length =? 64)%nat
  then Err (ErrBadKeyPrivateLength length)
  else Ok {| sk_keyData := NewKeyFromSeed (take 32 bytes); sk_chainCode := None |}.

Definition PrivateKeyFromString (s : string) : Result KeyError PrivateKey :=
  let sLen := String.length s in
  if negb (sLen =? 64)%nat && negb (sLen =? 96)%nat && negb (sLen =? 128)%nat
  then Err (ErrBadKeyPrivateString sLen)
  else
    match Hex.DecodeString
            (GoStrings.TrimPrefix (GoStrings.ToLower s) ed25519PrivateKeyPrefix) with
    | Err e => Err (ErrHex e)
    | Ok bytes => PrivateKeyFromBytes bytes
    end.

Definition PublicKeyFromString (s : string) : Result KeyError PublicKey :=
  let sLen := String.length s in
  if negb (sLen =? 64)%nat && negb (sLen =? 88)%nat
  then Err (ErrBadKeyPublicString s sLen)
  else
    let keyStr := GoStrings.TrimPrefix (GoStrings.ToLower s) ed25519PubKeyPrefix in
    match Hex.DecodeString keyStr with
    | Err e => Err (ErrHex e)
    | Ok bytes => Ok {| pk_keyData := bytes |}
    end.

Definition PublicKeyFromBytes (bytes : list byte) : Result KeyError PublicKey :=
  if negb (length bytes =? 32)%nat
  then Err (ErrBadKeyPublicLength (length bytes))
  else Ok {| pk_keyData := bytes |}.

(** [sk.PublicKey()]: [keyData[32:]]. *)
Definition PrivateKey_PublicKey (sk : PrivateKey) : Outcome PublicKey :=
  if (32 <=? length (sk_keyData sk))%nat
  then Returned {| pk_keyData := drop 32 (sk_keyData sk) |}
  else Panicked SliceBoundsOutOfRange.

(** [sk.String()]: [fmt.Sprint(prefix, hex)] of two string operands is their
    concatenation; [keyData[:32]] panics on a shorter slice. *)
Definition PrivateKey_String (sk : PrivateKey) : Outcome string :=
  if (32 <=? length (sk_keyData sk))%nat
  then Returned (ed25519PrivateKeyPrefix ++ Hex.EncodeToString (take 32 (sk_keyData sk)))
  else Panicked SliceBoundsOutOfRange.

Definition PublicKey_String (pk : PublicKey) : string :=
  ed25519PubKeyPrefix ++ Hex.EncodeToString (pk_keyData pk).

Definition PrivateKey_Bytes (sk : PrivateKey) : list byte := sk_keyData sk.
Definition PublicKey_Bytes (pk : PublicKey) : list byte := pk_keyData pk.

(** *** Facts *)

Lemma seed_length (bytes : list byte) :
  length bytes = 32%nat \/ length bytes = 64%nat -> length (take 32 bytes) = 32%nat.
Proof. intros H. rewrite length_take. lia. Qed.

Lemma NewKeyFromSeed_seed (seed : list byte) :
  length seed = 32%nat -> take 32 (NewKeyFromSeed seed) = seed.
Proof.
  intros H. unfold NewKeyFromSeed.
  rewrite take_app_le by lia. apply take_ge. lia.
Qed.

Lemma PrivateKeyFromBytes_ok (bytes : list byte) :
  length bytes = 32%nat \/ length bytes = 64%nat ->
  PrivateKeyFromBytes bytes
  = Ok {| sk_keyData := NewKeyFromSeed (take 32 bytes); sk_chainCode := None |}.
Proof.
  intros H. unfold PrivateKeyFromBytes.
  destruct H as [-> | ->]; reflexivity.
Qed.

Lemma PrivateKey_String_of_seed (seed : list byte) :
  length seed = 32%nat ->
  PrivateKey_String {| sk_keyData := NewKeyFromSeed seed; sk_chainCode := None |}
  = Returned (ed25519PrivateKeyPrefix ++ Hex.EncodeToString seed).
Proof.
  intros H. unfold PrivateKey_String. cbn [sk_keyData].
  rewrite NewKeyFromSeed_seed by exact H.
  unfold NewKeyFromSeed. rewrite length_app, H. reflexivity.
Qed.

Lemma PrivateKeyFromString_encoded (seed : list byte) :
  length seed = 32%nat ->
  PrivateKeyFromString (ed25519PrivateKeyPrefix ++ Hex.EncodeToString seed)
  = PrivateKeyFromBytes seed.
Proof.
  intros H. unfold PrivateKeyFromString.
  rewrite GoStrings.length_app, Hex.length_EncodeToString, H.
  rewrite GoStrings.ToLower_app, Hex.ToLower_EncodeToString.
  change (GoStrings.ToLower ed25519PrivateKeyPrefix) with ed25519PrivateKeyPrefix.
  rewrite GoStrings.TrimPrefix_app, Hex.DecodeString_EncodeToString.
  reflexivity.
Qed.

Lemma PublicKeyFromString_encoded (bytes : list byte) :
  length bytes = 32%nat ->
  PublicKeyFromString (ed25519PubKeyPrefix ++ Hex.EncodeToString bytes)
  = Ok {| pk_keyData := bytes |}.
Proof.
  intros H. unfold PublicKeyFromString.
  rewrite GoStrings.length_app, Hex.length_EncodeToString, H.
  rewrite GoStrings.ToLower_app, Hex.ToLower_EncodeToString.
  change (GoStrings.ToLower ed25519PubKeyPrefix) with ed25519PubKeyPrefix.
  rewrite GoStrings.TrimPrefix_app, Hex.DecodeString_EncodeToString.
  reflexivity.
Qed.

(** C9.  Text-encoding round trip.  A private key built from a 32-byte seed
    prints (without panicking) to a string that [PrivateKeyFromString] parses
    back to a key with the same key bytes; a public key of the valid length
    (the one [PublicKeyFromBytes] accepts) prints to a string that
    [PublicKeyFromString] parses back to the very same public key. *)
Theorem key_text_roundtrip (seed pub : list byte) :
  length seed = 32%nat ->
  length pub = 32%nat ->
  (exists sk s sk',
      PrivateKeyFromBytes seed = Ok sk
      /\ PrivateKey_String sk = Returned s
      /\ PrivateKeyFromString s = Ok sk'
      /\ sk_keyData sk' = sk_keyData sk)
  /\ (exists pk,
         PublicKeyFromBytes pub = Ok pk
         /\ PublicKeyFromString (PublicKey_String pk) = Ok pk).
Proof.
  intros Hseed Hpub. split.
  - eexists _, _, _.
    split; [apply PrivateKeyFromBytes_ok; now left|].
    rewrite (take_ge seed) by lia.
    split; [apply PrivateKey_String_of_seed; exact Hseed|].
    rewrite PrivateKeyFromString_encoded by exact Hseed.
    split; [apply PrivateKeyFromBytes_ok; now left|].
    cbn [sk_keyData]. now rewrite (take_ge seed) by lia.
  - exists {| pk_keyData := pub |}. split.
    + unfold PublicKeyFromBytes. now rewrite Hpub.
    + apply PublicKeyFromString_encoded. exact Hpub.
Qed.

(** *** Parsing: lengths, letter case and the prefix *)

(** All bytes of a string are ASCII (below 0x80), where [strings.ToLower]
    works byte by byte. *)
Fixpoint is_ascii (s : string) : bool :=
  match s with
  | EmptyString => true
  | String c s' => (N_of_ascii c <? 128)%N && is_ascii s'
  end.

Lemma ToLower_length (s : string) :
  String.length (GoStrings.ToLower s) = String.length s.
Proof. induction s as [|c s IH]; cbn; [reflexivity | now rewrite IH]. Qed.

Lemma drop_bytes_length (n : nat) (s : string) :
  String.length (GoStrings.drop_bytes n s) = (String.length s - n)%nat.
Proof.
  revert s. induction n as [|n IH]; intros s; cbn.
  - lia.
  - destruct s as [|c s]; cbn; [reflexivity | apply IH].
Qed.

Lemma drop_bytes_EncodeToString (n : nat) (bs : list byte) :
  GoStrings.drop_bytes (2 * n) (Hex.EncodeToString bs) = Hex.EncodeToString (drop n bs).
Proof.
  revert bs. induction n as [|n IH]; intros bs; [reflexivity|].
  replace (2 * S n)%nat with (S (S (2 * n))) by lia.
  destruct bs as [|v bs]; [reflexivity|]. cbn [Hex.EncodeToString GoStrings.drop_bytes drop].
  apply IH.
Qed.

Lemma EncodeToString_app (xs ys : list byte) :
  Hex.EncodeToString (xs ++ ys) = (Hex.EncodeToString xs ++ Hex.EncodeToString ys)%string.
Proof. induction xs as [|v xs IH]; cbn; [reflexivity | now rewrite IH]. Qed.

(** Strings two characters at a time. *)
Lemma string_pair_ind (P : string -> Prop) :
  P EmptyString ->
  (forall a, P (String a EmptyString)) ->
  (forall a b rest, P rest -> P (String a (String b rest))) ->
  forall s, P s.
Proof.
  intros H0 H1 H2.
  refine (fix go (s : string) : P s :=
            match s with
            | EmptyString => H0
            | String a EmptyString => H1 a
            | String a (String b rest) => H2 a b rest (go rest)
            end).
Qed.

Lemma DecodeString_length (s : string) (bs : list byte) :
  Hex.DecodeString s = Ok bs -> String.length s = (2 * length bs)%nat.
Proof.
  revert bs. induction s as [|a|a b rest IH] using string_pair_ind; intros bs.
  - intros [= <-]. reflexivity.
  - cbn. destruct (Hex.fromHexChar a); discriminate.
  - cbn [Hex.DecodeString].
    destruct (Hex.fromHexChar a); [|discriminate].
    destruct (Hex.fromHexChar b); [|discriminate].
    destruct (Hex.DecodeString rest) as [bs'|e]; [|discriminate].
    intros [= <-]. cbn. rewrite (IH bs' eq_refl). lia.
Qed.

(** X1.  [PrivateKeyFromBytes] looks at the first 32 bytes only: two inputs
    of 64 bytes with the same first half give the same key, the key of that
    half taken as a seed, whatever their second halves are. *)
Theorem PrivateKeyFromBytes_ignores_second_half (b1 b2 : list byte) :
  length b1 = 64%nat ->
  length b2 = 64%nat ->
  take 32 b1 = take 32 b2 ->
  PrivateKeyFromBytes b1 = PrivateKeyFromBytes b2
  /\ PrivateKeyFromBytes b1 = PrivateKeyFromBytes (take 32 b1)
  /\ exists sk, PrivateKeyFromBytes b1 = Ok sk
                /\ take 32 (sk_keyData sk) = take 32 b1
                /\ sk_chainCode sk = None.
Proof.
  intros H1 H2 Heq.
  rewrite (PrivateKeyFromBytes_ok b1), (PrivateKeyFromBytes_ok b2) by auto.
  rewrite (PrivateKeyFromBytes_ok (take 32 b1)) by (left; rewrite length_take; lia).
  rewrite take_take, Nat.min_id, Heq. repeat split.
  eexists. split; [reflexivity|]. cbn. split; [|reflexivity].
  apply NewKeyFromSeed_seed. rewrite length_take. lia.
Qed.

(** X2.  Parsing does not depend on letter case: two ASCII strings that
    agree up to case parse to the same private key, or fail with the same
    error, and to the same public key. *)
Theorem key_parsing_ignores_case (s t : string) :
  is_ascii s = true ->
  is_ascii t = true ->
  GoStrings.ToLower s = GoStrings.ToLower t ->
  PrivateKeyFromString s = PrivateKeyFromString t
  /\ (forall pk, PublicKeyFromString s = Ok pk <-> PublicKeyFromString t = Ok pk).
Proof.
  intros _ _ Hlow.
  assert (Hlen : String.length s = String.length t)
    by (rewrite <- (ToLower_length s), <- (ToLower_length t); now rewrite Hlow).
  split.
  - unfold PrivateKeyFromString. now rewrite Hlen, Hlow.
  - intros pk. unfold PublicKeyFromString. rewrite Hlen, Hlow.
    destruct (negb (String.length t =? 64)%nat && negb (String.length t =? 88)%nat);
      [split; discriminate | reflexivity].
Qed.

(** X3.  A private key given as the 64 hex digits of its seed, without the
    prefix, parses to the key of that seed, except when the digits themselves
    start with the prefix: then the prefix is cut off the seed and what is
    left, 16 bytes, is rejected. *)
Theorem PrivateKeyFromString_raw_seed (seed : list byte) :
  length seed = 32%nat ->
  PrivateKeyFromString (Hex.EncodeToString seed)
  = if GoStrings.HasPrefix (Hex.EncodeToString seed) ed25519PrivateKeyPrefix
    then Err (ErrBadKeyPrivateLength 16)
    else PrivateKeyFromBytes seed.
Proof.
  intros Hseed. unfold PrivateKeyFromString.
  rewrite Hex.length_EncodeToString, Hseed, Hex.ToLower_EncodeToString.
  cbn [Nat.mul Nat.add Nat.eqb negb andb].
  unfold GoStrings.TrimPrefix.
  destruct (GoStrings.HasPrefix (Hex.EncodeToString seed) ed25519PrivateKeyPrefix).
  - change (String.length ed25519PrivateKeyPrefix) with (2 * 16)%nat.
    rewrite drop_bytes_EncodeToString, Hex.DecodeString_EncodeToString.
    unfold PrivateKeyFromBytes. rewrite length_drop, Hseed. reflexivity.
  - now rewrite Hex.DecodeString_EncodeToString.
Qed.

(** X4.  [PublicKeyFromString] checks the length of the text, never that of
    the decoded key: whenever it succeeds the key is the hex decoding of the
    text after the prefix, if any, so besides 32 bytes it may have 20 (a text
    of 64 characters with the prefix) or 44 (a text of 88 without it), which
    [PublicKeyFromBytes] rejects. *)
Theorem PublicKeyFromString_key_length (s : string) (pk : PublicKey) :
  PublicKeyFromString s = Ok pk ->
  (String.length s = 64%nat \/ String.length s = 88%nat)
  /\ (if GoStrings.HasPrefix (GoStrings.ToLower s) ed25519PubKeyPrefix
      then (2 * length (pk_keyData pk) + 24)%nat = String.length s
      else (2 * length (pk_keyData pk))%nat = String.length s)
  /\ (PublicKeyFromBytes (pk_keyData pk) = Ok pk <-> length (pk_keyData pk) = 32%nat).
Proof.
  unfold PublicKeyFromString. intros H.
  destruct (Nat.eqb_spec (String.length s) 64) as [H64|H64];
    destruct (Nat.eqb_spec (String.length s) 88) as [H88|H88];
    cbn [negb andb] in H; try discriminate.
  all: destruct (Hex.DecodeString _) as [bytes|e] eqn:Hdec; [|discriminate].
  all: injection H as <-; cbn [pk_keyData].
  all: apply DecodeString_length in Hdec.
  all: unfold GoStrings.TrimPrefix in Hdec.
  all: split; [auto|]; split.
  all: try (destruct (GoStrings.HasPrefix (GoStrings.ToLower s) ed25519PubKeyPrefix);
            [rewrite drop_bytes_length, ToLower_length in Hdec;
             change (String.length ed25519PubKeyPrefix) with 24%nat in Hdec; lia
            |rewrite ToLower_length in Hdec; lia]).
  all: unfold PublicKeyFromBytes; split.
  all: try (intros Hlen; now rewrite Hlen).
  all: destruct (Nat.eqb_spec (length bytes) 32); [auto | discriminate].
Qed.

(** *** Child key derivation *)

Local Open Scope Z_scope.

(** HMAC-SHA512 of a message under a key ([hmac.New(sha512.New, key)],
    [Write], [Sum]); its digest has 64 bytes. *)
Variable hmac_sha512 : list byte -> list byte -> list byte.

(** The low 8 bits of an integer as a byte. *)
Definition byte_of_Z (z : Z) : byte :=
  match Byte.of_N (Z.to_N (z mod 256)) with
  | Some b => b
  | None => x00
  end.

(** [b | m] on a byte, for a mask below 256. *)
Definition byte_or (b : byte) (m : N) : byte :=
  match Byte.of_N (N.lor (Byte.to_N b) m) with
  | Some b' => b'
  | None => x00
  end.

(** [copy(dst[off:], src)]: as many bytes of [src] as fit are written into
    [dst] from offset [off] on. *)
Definition copy_at (off : nat) (src dst : list byte) : list byte :=
  let n := min (length dst - off) (length src) in
  take off dst ++ take n src ++ drop (off + n) dst.

(** [binary.BigEndian.PutUint32(b[off:off+4], v)]. *)
Definition PutUint32 (off : nat) (v : Z) (b : list byte) : list byte :=
  copy_at off
    [byte_of_Z (Z.shiftr v 24); byte_of_Z (Z.shiftr v 16);
     byte_of_Z (Z.shiftr v 8); byte_of_Z v] b.

(** The HMAC input of [deriveChildKey]: a zero byte, the parent key, the
    index in big endian, with the top bit of the index set. *)
Definition deriveChildKey_input (parentKey : list byte) (index : Z) : list byte :=
  let input := replicate 37 x00 in
  let input := <[0%nat := x00]> input in
  let input := copy_at 1 parentKey input in
  let input := PutUint32 33 index input in
  match input !! 33%nat with
  | Some b => <[33%nat := byte_or b 128]> input
  | None => input
  end.

(** [deriveChildKey]: [digest[0:32]] and [digest[32:]] of the HMAC under the
    chain code.  [index] is a [uint32]. *)
Definition deriveChildKey (parentKey chainCode : list byte) (index : Z)
  : list byte * list byte :=
  let digest := hmac_sha512 chainCode (deriveChildKey_input parentKey index) in
  (take 32 digest, drop 32 digest).

Definition SupportsDerivation (sk : PrivateKey) : bool :=
  match sk_chainCode sk with
  | Some _ => true
  | None => false
  end.

Inductive DeriveError : Type :=
| ErrBadKeyNoDerivation            (* child key cannot be derived from this key *)
| ErrDerivedKey (e : KeyError).

Definition Derive (sk : PrivateKey) (index : Z) : Result DeriveError PrivateKey :=
  match sk_chainCode sk with
  | None => Err ErrBadKeyNoDerivation
  | Some chainCode =>
      let '(derivedKeyBytes, chainCode') :=
        deriveChildKey (PrivateKey_Bytes sk) chainCode index in
      match PrivateKeyFromBytes derivedKeyBytes with
      | Err err => Err (ErrDerivedKey err)
      | Ok derivedKey =>
          Ok {| sk_keyData := sk_keyData derivedKey; sk_chainCode := Some chainCode' |}
      end
  end.

Lemma copy_at_length (off : nat) (src dst : list byte) :
  (off <= length dst)%nat -> length (copy_at off src dst) = length dst.
Proof.
  intros H. unfold copy_at. rewrite !length_app, !length_take, length_drop. lia.
Qed.

(** The input, in one piece: everything before the index comes from the
    first 32 bytes of the parent key. *)
Lemma deriveChildKey_input_closed (parentKey : list byte) (index : Z) :
  deriveChildKey_input parentKey index
  = (take 33 (copy_at 1 parentKey (replicate 37 x00))
       ++ [byte_or (byte_of_Z (Z.shiftr index 24)) 128; byte_of_Z (Z.shiftr index 16);
           byte_of_Z (Z.shiftr index 8); byte_of_Z index])%list.
Proof.
  unfold deriveChildKey_input, PutUint32.
  change (<[0%nat:=x00]> (replicate 37 x00)) with (replicate 37 x00).
  set (base := copy_at 1 parentKey (replicate 37 x00)).
  assert (Hbase : length base = 37%nat)
    by (unfold base; rewrite copy_at_length; rewrite length_replicate; lia).
  unfold copy_at at 1 2 3. rewrite Hbase. cbn [length Nat.sub Nat.min Nat.add take].
  rewrite (drop_ge base 37) by lia. rewrite app_nil_r.
  rewrite list_lookup_middle by (rewrite length_take; lia).
  rewrite insert_app_r_alt by (rewrite length_take; lia).
  rewrite length_take, Hbase. reflexivity.
Qed.

Lemma deriveChildKey_input_seed (parentKey : list byte) :
  take 33 (copy_at 1 parentKey (replicate 37 x00))
  = take 33 (copy_at 1 (take 32 parentKey) (replicate 37 x00)).
Proof.
  destruct (Nat.lt_ge_cases (length parentKey) 32) as [Hshort|Hlong].
  - now rewrite (take_ge parentKey 32) by lia.
  - unfold copy_at. rewrite !length_replicate, length_take.
    rewrite (Nat.min_l 32 (length parentKey)) by lia.
    change (37 - 1)%nat with 36%nat. change (Init.Nat.min 36 32) with 32%nat.
    cbn [take replicate app].
    f_equal.
    rewrite !take_app, !take_take, !length_take.
    replace (Nat.min 32 (Nat.min 36 (length parentKey))) with 32%nat by lia.
    replace (32 - Nat.min (Nat.min 36 (length parentKey)) (length parentKey))%nat
      with 0%nat by lia.
    replace (32 - Nat.min (Nat.min 32 32) (length parentKey))%nat with 0%nat by lia.
    now rewrite !take_0.
Qed.

Lemma byte_of_Z_add_multiple (z k : Z) : byte_of_Z (z + k * 256) = byte_of_Z z.
Proof. unfold byte_of_Z. now rewrite Z_mod_plus_full. Qed.

Lemma hardened_top_byte (x : Z) :
  0 <= x < 128 ->
  byte_or (byte_of_Z (x + 128)) 128 = byte_or (byte_of_Z x) 128.
Proof.
  intros Hx.
  assert (Hall : forallb (fun n => Byte.eqb (byte_or (byte_of_Z (Z.of_nat n + 128)) 128)
                                     (byte_or (byte_of_Z (Z.of_nat n)) 128))
                   (seq 0 128) = true) by (vm_compute; reflexivity).
  rewrite forallb_forall in Hall.
  specialize (Hall (Z.to_nat x)). rewrite Z2Nat.id in Hall by lia.
  apply Byte.byte_dec_bl, Hall, in_seq. lia.
Qed.

Lemma shifted_byte_ignores_bit31 (index : Z) (k : Z) :
  0 <= k <= 16 ->
  byte_of_Z (Z.shiftr (index + 2 ^ 31) k) = byte_of_Z (Z.shiftr index k).
Proof.
  intros Hk. rewrite !Z.shiftr_div_pow2 by lia.
  replace (index + 2 ^ 31) with (index + 2 ^ (31 - k) * 2 ^ k)
    by (rewrite <- Z.pow_add_r by lia; repeat f_equal; lia).
  rewrite Z.div_add by (apply Z.pow_nonzero; lia).
  replace (2 ^ (31 - k)) with (2 ^ (23 - k) * 256)
    by (change 256 with (2 ^ 8); rewrite <- Z.pow_add_r by lia; f_equal; lia).
  apply byte_of_Z_add_multiple.
Qed.

Lemma top_byte_ignores_bit31 (index : Z) :
  0 <= index < 2 ^ 31 ->
  byte_or (byte_of_Z (Z.shiftr (index + 2 ^ 31) 24)) 128
  = byte_or (byte_of_Z (Z.shiftr index 24)) 128.
Proof.
  intros Hindex. rewrite !Z.shiftr_div_pow2 by lia.
  replace (index + 2 ^ 31) with (index + 128 * 2 ^ 24) by lia.
  rewrite Z.div_add by lia.
  apply hardened_top_byte.
  split; [apply Z.div_pos; lia | apply Z.div_lt_upper_bound; lia].
Qed.

(** X5.  Derivation is always hardened and uses the seed only: an index and
    the same index with bit 31 set derive the same child, and a 64-byte
    private key derives the same child as its first 32 bytes. *)
Theorem deriveChildKey_hardened (parentKey chainCode : list byte) (index : Z) :
  0 <= index < 2 ^ 31 ->
  deriveChildKey parentKey chainCode (index + 2 ^ 31)
  = deriveChildKey parentKey chainCode index
  /\ deriveChildKey (take 32 parentKey) chainCode index
     = deriveChildKey parentKey chainCode index.
Proof.
  intros Hindex. unfold deriveChildKey. split.
  - rewrite !deriveChildKey_input_closed.
    rewrite top_byte_ignores_bit31 by exact Hindex.
    rewrite (shifted_byte_ignores_bit31 index 16) by lia.
    rewrite (shifted_byte_ignores_bit31 index 8) by lia.
    pose proof (shifted_byte_ignores_bit31 index 0) as Hlow.
    rewrite !Z.shiftr_0_r in Hlow. now rewrite Hlow by lia.
  - rewrite !deriveChildKey_input_closed.
    now rewrite <- deriveChildKey_input_seed.
Qed.

(** X6.  A key read from bytes or from text carries no chain code, so it
    does not support derivation and [Derive] fails on it for every index. *)
Theorem parsed_keys_do_not_derive (sk : PrivateKey) (index : Z) :
  (exists bytes, PrivateKeyFromBytes bytes = Ok sk)
  \/ (exists s, PrivateKeyFromString s = Ok sk) ->
  SupportsDerivation sk = false
  /\ Derive sk index = Err ErrBadKeyNoDerivation.
Proof.
  intros H.
  assert (Hcc : sk_chainCode sk = None).
  { assert (Hbytes : forall bytes, PrivateKeyFromBytes bytes = Ok sk -> sk_chainCode sk = None).
    { intros bytes. unfold PrivateKeyFromBytes.
      destruct (negb _ && negb _); [discriminate|]. now intros [= <-]. }
    destruct H as [[bytes Hb] | [s Hs]]; [now apply (Hbytes bytes)|].
    unfold PrivateKeyFromString in Hs.
    destruct (negb _ && negb _ && negb _); [discriminate|].
    destruct (Hex.DecodeString _) as [bytes|e]; [|discriminate].
    now apply (Hbytes bytes). }
  unfold SupportsDerivation, Derive. now rewrite Hcc.
Qed.

(** X7.  With a chain code, and an HMAC digest of 64 bytes, [Derive]
    succeeds: the child's seed is the first half of the digest, its chain
    code the second half, so the child supports derivation in turn. *)
Theorem Derive_with_chain_code (sk : PrivateKey) (chainCode : list byte) (index : Z) :
  sk_chainCode sk = Some chainCode ->
  length (hmac_sha512 chainCode (deriveChildKey_input (sk_keyData sk) index)) = 64%nat ->
  exists child,
    Derive sk index = Ok child
    /\ take 32 (sk_keyData child)
       = take 32 (hmac_sha512 chainCode (deriveChildKey_input (sk_keyData sk) index))
    /\ sk_chainCode child
       = Some (drop 32 (hmac_sha512 chainCode (deriveChildKey_input (sk_keyData sk) index)))
    /\ SupportsDerivation child = true.
Proof.
  intros Hcc Hlen. unfold Derive, deriveChildKey, PrivateKey_Bytes. rewrite Hcc.
  set (digest := hmac_sha512 chainCode (deriveChildKey_input (sk_keyData sk) index)) in *.
  rewrite (PrivateKeyFromBytes_ok (take 32 digest)) by (left; rewrite length_take; lia).
  eexists. split; [reflexivity|]. cbn [sk_keyData sk_chainCode].
  split; [|split; reflexivity].
  rewrite take_take, Nat.min_id. apply NewKeyFromSeed_seed. rewrite length_take. lia.
Qed.

Local Close Scope Z_scope.

(** *** Protobuf keys *)

Section ProtoKeys.

(** Types and functions of other files: protobuf key lists and contract ids,
    their decoded forms, and the decoders. *)
Variables pbKeyList pbContractID KeyList ContractIDKey : Type.

Inductive ProtoKeyError : Type :=
| ErrBadKeyNotImplemented          (* key type not implemented: %v *)
| ErrProtoKey (e : KeyError).

Variable keyListFromProtobuf : pbKeyList -> Result ProtoKeyError KeyList.
Variable KeyList_setThreshold : Z -> KeyList -> KeyList.   (* keys.threshold = threshold *)
Variable contractIDFromProtobuf : pbContractID -> ContractIDKey.

(** [pbKey.GetKey()]: the oneof of [proto.Key].  [Key_Other] stands for the
    cases the switch does not list and for the unset oneof. *)
Inductive pbKey : Type :=
| Key_Ed25519 (Ed25519 : list byte)
| Key_ThresholdKey (threshold : Z) (keys : pbKeyList)
| Key_KeyList (keys : pbKeyList)
| Key_ContractID (id : pbContractID)
| Key_Other.

(** The implementations of the [Key] interface that [keyFromProtobuf]
    returns. *)
Inductive Key : Type :=
| KeyPublicKey (pk : PublicKey)
| KeyKeyList (keys : KeyList)
| KeyContractID (id : ContractIDKey).

Definition keyFromProtobuf (key : pbKey) : Result ProtoKeyError Key :=
  match key with
  | Key_Ed25519 bytes =>
      match PublicKeyFromBytes bytes with
      | Ok pk => Ok (KeyPublicKey pk)
      | Err err => Err (ErrProtoKey err)
      end
  | Key_ThresholdKey threshold keys =>
      match keyListFromProtobuf keys with
      | Err err => Err err
      | Ok keys => Ok (KeyKeyList (KeyList_setThreshold threshold keys))
      end
  | Key_KeyList keys =>
      match keyListFromProtobuf keys with
      | Err err => Err err
      | Ok keys => Ok (KeyKeyList keys)
      end
  | Key_ContractID id => Ok (KeyContractID (contractIDFromProtobuf id))
  | Key_Other => Err ErrBadKeyNotImplemented
  end.

Definition PublicKey_toProtoKey (pk : PublicKey) : pbKey :=
  Key_Ed25519 (pk_keyData pk).

(** [sk.PublicKey().toProtoKey()]. *)
Definition PrivateKey_toProtoKey (sk : PrivateKey) : Outcome pbKey :=
  match PrivateKey_PublicKey sk with
  | Returned pk => Returned (PublicKey_toProtoKey pk)
  | Panicked p => Panicked p
  end.

(** X8.  The protobuf form of a key decodes back to the public key: a
    public key of 32 bytes survives [toProtoKey] and [keyFromProtobuf]
    unchanged, and the protobuf form of a private key built from bytes is
    that of its public key, so decoding it gives the public key only. *)
Theorem proto_key_roundtrip (pk : PublicKey) (bytes : list byte) (sk : PrivateKey) :
  length (pk_keyData pk) = 32%nat ->
  PrivateKeyFromBytes bytes = Ok sk ->
  length (ed25519_publicKey (take 32 bytes)) = 32%nat ->
  keyFromProtobuf (PublicKey_toProtoKey pk) = Ok (KeyPublicKey pk)
  /\ PrivateKey_PublicKey sk
     = Returned {| pk_keyData := ed25519_publicKey (take 32 bytes) |}
  /\ exists p, PrivateKey_toProtoKey sk = Returned p
               /\ keyFromProtobuf p
                  = Ok (KeyPublicKey {| pk_keyData := ed25519_publicKey (take 32 bytes) |}).
Proof.
  intros Hpk Hsk Hpub.
  assert (Hlen : length bytes = 32%nat \/ length bytes = 64%nat).
  { unfold PrivateKeyFromBytes in Hsk.
    destruct (Nat.eqb_spec (length bytes) 32); [auto|].
    destruct (Nat.eqb_spec (length bytes) 64); [auto|discriminate]. }
  rewrite (PrivateKeyFromBytes_ok bytes Hlen) in Hsk. injection Hsk as <-.
  assert (Hseed : length (take 32 bytes) = 32%nat) by (rewrite length_take; lia).
  assert (Hpublic : PrivateKey_PublicKey
                      {| sk_keyData := NewKeyFromSeed (take 32 bytes); sk_chainCode := None |}
                    = Returned {| pk_keyData := ed25519_publicKey (take 32 bytes) |}).
  { unfold PrivateKey_PublicKey, NewKeyFromSeed. cbn [sk_keyData].
    rewrite length_app, Hseed, Hpub. cbn [Nat.add Nat.leb].
    now rewrite drop_app_length' by (symmetry; exact Hseed). }
  split; [|split; [exact Hpublic|]].
  - unfold keyFromProtobuf, PublicKey_toProtoKey, PublicKeyFromBytes. rewrite Hpk.
    now destruct pk.
  - unfold PrivateKey_toProtoKey. rewrite Hpublic. eexists. split; [reflexivity|].
    unfold keyFromProtobuf, PublicKey_toProtoKey, PublicKeyFromBytes. cbn [pk_keyData].
    now rewrite Hpub.
Qed.

End ProtoKeys.

(** *** PEM files *)

Section Pem.

Record PemBlock : Type := mkPemBlock {
  block_Type : string;
  block_Bytes : list byte
}.

(** What [pkcs8.ParsePKCS8PrivateKey] may hand back: an ed25519 private key,
    or a key of another kind. *)
Inductive PKCS8Key : Type :=
| PKCS8Ed25519 (key : list byte)
| PKCS8Other.

Inductive PemError : Type :=
| ErrBadKeyNoPem                   (* pem file did not contain a private key *)
| ErrPkcs8 (msg : string)
| ErrPemKey (e : KeyError).

(** [pem.Decode]: the first block of the data, if any, and the rest. *)
Variable pem_Decode : list byte -> option PemBlock * list byte.
Variable pkcs8_ParsePKCS8PrivateKey : list byte -> string -> Result string PKCS8Key.

Inductive PemLoopExit : Type :=
| PemFound (pk : PemBlock)   (* break *)
| PemNoKey.                  (* return: no key was found *)

(** The loop [for block, rest := pem.Decode(bytes); block != nil; { ... }]
    entered with a block.  The loop has no post statement: [block] and [rest]
    keep the values of the one call to [pem.Decode], the body only assigns
    [bytes].  [None] when [fuel] iterations did not leave the loop. *)
Fixpoint pemLoop (fuel : nat) (block : PemBlock) (rest : list byte) (blockType : string)
    (bytes : list byte) : option PemLoopExit :=
  match fuel with
  | O => None
  | S fuel' =>
      if String.eqb (block_Type block) blockType then Some (PemFound block)
      else
        let bytes := rest in
        if (length bytes =? 0)%nat then Some PemNoKey
        else pemLoop fuel' block rest blockType bytes
  end.

Definition pemBlockType (passphrase : string) : string :=
  if (String.length passphrase =? 0)%nat then "PRIVATE KEY" else "ENCRYPTED PRIVATE KEY".

Definition liftKey (r : Result KeyError PrivateKey) : Result PemError PrivateKey :=
  match r with
  | Ok sk => Ok sk
  | Err e => Err (ErrPemKey e)
  end.

(** [PrivateKeyFromPem]: [None] when the loop is still running after [fuel]
    iterations.  With no block at all the loop is not entered and [pk] stays
    nil, so [pk.Bytes] faults. *)
Definition PrivateKeyFromPem (fuel : nat) (bytes : list byte) (passphrase : string)
  : option (Outcome (Result PemError PrivateKey)) :=
  let blockType := pemBlockType passphrase in
  match pem_Decode bytes with
  | (None, _) => Some (Panicked NilDereference)
  | (Some block, rest) =>
      match pemLoop fuel block rest blockType bytes with
      | None => None
      | Some PemNoKey => Some (Returned (Err ErrBadKeyNoPem))
      | Some (PemFound pk) =>
          if (String.length passphrase =? 0)%nat
          then Some (Returned
                       (liftKey (PrivateKeyFromString (Hex.EncodeToString (block_Bytes pk)))))
          else
            match pkcs8_ParsePKCS8PrivateKey (block_Bytes pk) passphrase with
            | Err msg => Some (Returned (Err (ErrPkcs8 msg)))
            | Ok (PKCS8Ed25519 key) => Some (Returned (liftKey (PrivateKeyFromBytes key)))
            | Ok PKCS8Other => Some (Panicked (PanicMsg "interface conversion"))
            end
      end
  end.

(** The 16 bytes of the DER header of an ed25519 private key; their hex
    digits are [ed25519PrivateKeyPrefix]. *)
Definition derPrivateKeyHeader : list byte :=
  [x30; x2e; x02; x01; x00; x30; x05; x06; x03; x2b; x65; x70; x04; x22; x04; x20].

Lemma pemLoop_stuck (block : PemBlock) (rest : list byte) (blockType : string)
    (bytes : list byte) (fuel : nat) :
  String.eqb (block_Type block) blockType = false ->
  rest <> [] ->
  pemLoop fuel block rest blockType bytes = None.
Proof.
  intros Htype Hrest. revert bytes.
  induction fuel as [|fuel IH]; intros bytes; cbn; [reflexivity|].
  rewrite Htype. destruct rest as [|b rest']; [congruence|]. cbn. apply IH.
Qed.

(** X9.  [PrivateKeyFromPem] only ever looks at the first block of the file.
    When that block is not of the wanted type and the file goes on after it,
    the loop never ends, however many iterations it is given; when nothing
    follows the block, the call fails with the no-key error; and when the
    data holds no block at all, the call faults on the nil block. *)
Theorem PrivateKeyFromPem_first_block (bytes : list byte) (passphrase : string)
    (block : PemBlock) (rest : list byte) :
  pem_Decode bytes = (Some block, rest) ->
  String.eqb (block_Type block) (pemBlockType passphrase) = false ->
  (rest <> [] -> forall fuel, PrivateKeyFromPem fuel bytes passphrase = None)
  /\ (rest = [] ->
      forall fuel, PrivateKeyFromPem (S fuel) bytes passphrase
                   = Some (Returned (Err ErrBadKeyNoPem)))
  /\ (forall bytes' rest' fuel,
         pem_Decode bytes' = (None, rest') ->
         PrivateKeyFromPem fuel bytes' passphrase = Some (Panicked NilDereference)).
Proof.
  intros Hdec Htype. split; [|split].
  - intros Hrest fuel. unfold PrivateKeyFromPem. rewrite Hdec.
    now rewrite pemLoop_stuck.
  - intros -> fuel. unfold PrivateKeyFromPem. rewrite Hdec. cbn. now rewrite Htype.
  - intros bytes' rest' fuel Hnone. unfold PrivateKeyFromPem. now rewrite Hnone.
Qed.

(** X10.  An unencrypted PEM file whose first block is a [PRIVATE KEY] block
    holding the DER header followed by a 32-byte seed gives the key of that
    seed, whatever follows the block. *)
Theorem PrivateKeyFromPem_unencrypted (bytes : list byte) (block : PemBlock)
    (rest seed : list byte) (fuel : nat) :
  pem_Decode bytes = (Some block, rest) ->
  block_Type block = "PRIVATE KEY" ->
  block_Bytes block = (derPrivateKeyHeader ++ seed)%list ->
  length seed = 32%nat ->
  PrivateKeyFromPem (S fuel) bytes EmptyString
  = Some (Returned (Ok {| sk_keyData := NewKeyFromSeed seed; sk_chainCode := None |})).
Proof.
  intros Hdec Htype Hbytes Hseed. unfold PrivateKeyFromPem. rewrite Hdec.
  change (pemBlockType EmptyString) with "PRIVATE KEY".
  cbn [pemLoop]. rewrite Htype, String.eqb_refl. cbn [String.length Nat.eqb].
  rewrite Hbytes, EncodeToString_app.
  change (Hex.EncodeToString derPrivateKeyHeader) with ed25519PrivateKeyPrefix.
  rewrite PrivateKeyFromString_encoded by exact Hseed.
  rewrite PrivateKeyFromBytes_ok by (now left). cbn.
  now rewrite (take_ge seed) by lia.
Qed.

End Pem.

End Ed25519.

(** The round trip at the all-zero seed and an all-ones public key, for a
    stand-in derivation that returns 32 bytes of 0x2a. *)
Lemma key_text_roundtrip_witness :
  let derive := fun _ : list byte => replicate 32 x2a in
  (exists sk s sk',
      PrivateKeyFromBytes derive (replicate 32 x00) = Ok sk
      /\ PrivateKey_String sk = Returned s
      /\ PrivateKeyFromString derive s = Ok sk'
      /\ sk_keyData sk' = sk_keyData sk)
  /\ (exists pk,
         PublicKeyFromBytes (replicate 32 xff) = Ok pk
         /\ PublicKeyFromString (PublicKey_String pk) = Ok pk).
Proof.
  exact (key_text_roundtrip (fun _ => replicate 32 x2a)
           (replicate 32 x00) (replicate 32 xff) eq_refl eq_refl).
Defined.

(** The operator key of the CI configuration parses, and prints back to the
    same text. *)
Example operator_key_roundtrip :
  let derive := fun _ : list byte => replicate 32 x2a in
  let text := "302e020100300506032b65700422042091132178e72057a1d7528025956fe39b0b847f200ab59b2fdd367017f3087137" in
  exists sk, PrivateKeyFromString derive text = Ok sk
             /\ PrivateKey_String sk = Returned text.
Proof. eexists; split; vm_compute; reflexivity. Qed.

(** *** Concrete instances

    Stand-ins for the cryptographic functions: a derivation that returns 32
    bytes of 0x2a, and an HMAC that pads its message to a digest that depends
    on it. *)

Definition sample_publicKey (seed : list byte) : list byte := replicate 32 x2a.

Definition sample_hmac (key message : list byte) : list byte :=
  take 64 (message ++ replicate 64 x00).

Lemma PrivateKeyFromBytes_ignores_second_half_witness :
  PrivateKeyFromBytes sample_publicKey (replicate 32 x07 ++ replicate 32 x01)
  = PrivateKeyFromBytes sample_publicKey (replicate 32 x07 ++ replicate 32 x02).
Proof.
  exact (proj1 (PrivateKeyFromBytes_ignores_second_half sample_publicKey
                  (replicate 32 x07 ++ replicate 32 x01)
                  (replicate 32 x07 ++ replicate 32 x02) eq_refl eq_refl eq_refl)).
Defined.

Lemma key_parsing_ignores_case_witness :
  PrivateKeyFromString sample_publicKey
    "302E020100300506032B65700422042091132178E72057A1D7528025956FE39B0B847F200AB59B2FDD367017F3087137"
  = PrivateKeyFromString sample_publicKey
      "302e020100300506032b65700422042091132178e72057a1d7528025956fe39b0b847f200ab59b2fdd367017f3087137".
Proof.
  exact (proj1 (key_parsing_ignores_case sample_publicKey
                  "302E020100300506032B65700422042091132178E72057A1D7528025956FE39B0B847F200AB59B2FDD367017F3087137"
                  "302e020100300506032b65700422042091132178e72057a1d7528025956fe39b0b847f200ab59b2fdd367017f3087137"
                  eq_refl eq_refl eq_refl)).
Defined.

(** A seed that starts with the bytes of the DER header: as 64 hex digits it
    is rejected; a seed of zeros is accepted. *)
Lemma PrivateKeyFromString_raw_seed_witness :
  PrivateKeyFromString sample_publicKey
    (Hex.EncodeToString (derPrivateKeyHeader ++ replicate 16 x00))
  = Err (ErrBadKeyPrivateLength 16)
  /\ PrivateKeyFromString sample_publicKey (Hex.EncodeToString (replicate 32 x00))
     = PrivateKeyFromBytes sample_publicKey (replicate 32 x00).
Proof.
  split.
  - exact (PrivateKeyFromString_raw_seed sample_publicKey
             (derPrivateKeyHeader ++ replicate 16 x00) eq_refl).
  - exact (PrivateKeyFromString_raw_seed sample_publicKey (replicate 32 x00) eq_refl).
Defined.

(** 88 hex digits without the prefix: a public key of 44 bytes. *)
Lemma PublicKeyFromString_key_length_witness :
  PublicKeyFromString (Hex.EncodeToString (replicate 44 x00))
  = Ok {| pk_keyData := replicate 44 x00 |}
  /\ (PublicKeyFromBytes (replicate 44 x00) = Ok {| pk_keyData := replicate 44 x00 |}
      <-> length (replicate 44 x00) = 32%nat).
Proof.
  split; [reflexivity|].
  exact (proj2 (proj2 (PublicKeyFromString_key_length
                         (Hex.EncodeToString (replicate 44 x00))
                         {| pk_keyData := replicate 44 x00 |} eq_refl))).
Defined.

Lemma deriveChildKey_hardened_witness :
  deriveChildKey sample_hmac (replicate 64 x07) (replicate 32 x01) (5 + 2 ^ 31)
  = deriveChildKey sample_hmac (replicate 64 x07) (replicate 32 x01) 5
  /\ deriveChildKey sample_hmac (take 32 (replicate 64 x07)) (replicate 32 x01) 5
     = deriveChildKey sample_hmac (replicate 64 x07) (replicate 32 x01) 5.
Proof.
  apply (deriveChildKey_hardened sample_hmac (replicate 64 x07) (replicate 32 x01) 5).
  lia.
Defined.

(** Indices that differ below bit 31 do reach the HMAC as different inputs. *)
Example deriveChildKey_distinguishes_indices :
  deriveChildKey sample_hmac (replicate 64 x07) (replicate 32 x01) 5
  <> deriveChildKey sample_hmac (replicate 64 x07) (replicate 32 x01) 6.
Proof. vm_compute. discriminate. Qed.

Lemma parsed_keys_do_not_derive_witness :
  SupportsDerivation
    {| sk_keyData := NewKeyFromSeed sample_publicKey (take 32 (replicate 32 x00));
       sk_chainCode := None |} = false
  /\ Derive sample_publicKey sample_hmac
       {| sk_keyData := NewKeyFromSeed sample_publicKey (take 32 (replicate 32 x00));
          sk_chainCode := None |} 0
     = Err ErrBadKeyNoDerivation.
Proof.
  exact (parsed_keys_do_not_derive sample_publicKey sample_hmac _ 0%Z
           (or_introl (ex_intro _ (replicate 32 x00) eq_refl))).
Defined.

Lemma Derive_with_chain_code_witness :
  exists child,
    Derive sample_publicKey sample_hmac
      {| sk_keyData := replicate 64 x07; sk_chainCode := Some (replicate 32 x01) |} 0
    = Ok child
    /\ SupportsDerivation child = true.
Proof.
  destruct (Derive_with_chain_code sample_publicKey sample_hmac
              {| sk_keyData := replicate 64 x07; sk_chainCode := Some (replicate 32 x01) |}
              (replicate 32 x01) 0%Z eq_refl eq_refl) as (child & Hderive & _ & _ & Hsupports).
  exists child. split; [exact Hderive | exact Hsupports].
Defined.

Lemma proto_key_roundtrip_witness :
  keyFromProtobuf unit unit unit unit (fun _ => Ok tt) (fun _ keys => keys) (fun id => id)
    (PublicKey_toProtoKey unit unit {| pk_keyData := replicate 32 x09 |})
  = Ok (KeyPublicKey unit unit {| pk_keyData := replicate 32 x09 |}).
Proof.
  exact (proj1 (proto_key_roundtrip sample_publicKey unit unit unit unit
                  (fun _ => Ok tt) (fun _ keys => keys) (fun id => id)
                  {| pk_keyData := replicate 32 x09 |} (replicate 32 x00)
                  {| sk_keyData := NewKeyFromSeed sample_publicKey (take 32 (replicate 32 x00));
                     sk_chainCode := None |}
                  eq_refl eq_refl eq_refl)).
Defined.

(** A file that starts with a certificate and goes on: the loop does not
    end. *)
Lemma PrivateKeyFromPem_first_block_witness :
  PrivateKeyFromPem sample_publicKey
    (fun _ => (Some {| block_Type := "CERTIFICATE"; block_Bytes := [] |}, [x2d]))
    (fun _ _ => Err "not PKCS8") 1000 [x2d; x2d] EmptyString
  = None.
Proof.
  refine (proj1 (PrivateKeyFromPem_first_block sample_publicKey
                   (fun _ => (Some {| block_Type := "CERTIFICATE"; block_Bytes := [] |}, [x2d]))
                   (fun _ _ => Err "not PKCS8") [x2d; x2d] EmptyString
                   {| block_Type := "CERTIFICATE"; block_Bytes := [] |} [x2d]
                   eq_refl eq_refl) _ 1000%nat).
  discriminate.
Defined.

Lemma PrivateKeyFromPem_unencrypted_witness :
  PrivateKeyFromPem sample_publicKey
    (fun _ => (Some {| block_Type := "PRIVATE KEY";
                       block_Bytes := derPrivateKeyHeader ++ replicate 32 x00 |}, []))
    (fun _ _ => Err "not PKCS8") 1 [x2d] EmptyString
  = Some (Returned (Ok {| sk_keyData := NewKeyFromSeed sample_publicKey (replicate 32 x00);
                          sk_chainCode := None |})).
Proof.
  exact (PrivateKeyFromPem_unencrypted sample_publicKey
           (fun _ => (Some {| block_Type := "PRIVATE KEY";
                              block_Bytes := derPrivateKeyHeader ++ replicate 32 x00 |}, []))
           (fun _ _ => Err "not PKCS8") [x2d]
           {| block_Type := "PRIVATE KEY";
              block_Bytes := derPrivateKeyHeader ++ replicate 32 x00 |}
           [] (replicate 32 x00) 0 eq_refl eq_refl eq_refl eq_refl).
Defined.

End Keys.

(** ** Values shared by the queries *)

Set Warnings "-register-all".
Local Open Scope Z_scope.

(** [Hbar] wraps an [int64] amount of tinybar; [HbarFromTinybar] is its
    constructor and [Hbar{}] is [HbarFromTinybar 0]. *)
Record Hbar : Type := HbarFromTinybar { tinybar : Z }.

Record AccountID : Type := mkAccountID {
  Shard : Z;
  Realm : Z;
  Account : Z
}.

(** Error values.  [ErrCollaborator] stands for an error produced by code
    outside these files (transport, JSON, protobuf decoding, signing). *)
Inductive error : Type :=
| errNoClientProvided
| ErrMaxQueryPaymentExceeded (QueryCost MaxQueryPayment : Hbar) (query : string)
| ErrHTTPStatus (code : Z)   (* HTTP request failed with status code: %d *)
| ErrCollaborator (msg : string).

(** The client's operator: the paying account (its signer is behind
    [_QueryMakePaymentTransaction]). *)
Record Operator : Type := mkOperator {
  operator_accountID : AccountID
}.

Record Client : Type := mkClient {
  operator : option Operator;
  client_maxQueryPayment : Hbar;
  autoValidateChecksums : bool;
  GetMirrorNetwork : list string
}.

(** [time.Duration] is an [int64] count of nanoseconds. *)
Definition Duration : Type := Z.
Definition Millisecond : Duration := 1000000.
Definition Second : Duration := 1000000000.

(** ** Observable effects *)

(** What a call does to the outside world, in order. *)
Inductive Event : Type :=
| EvSleep (d : Duration)     (* time.Sleep(d): the caller is suspended for at least d *)
| EvHttpGet (url : string)   (* http.Get(url) is issued *)
| EvBodyClose.               (* resp.Body.Close() *)

(** A computation that emits events and may panic. *)
Definition IO (A : Type) : Type := (list Event * Outcome A)%type.

Definition ret {A} (a : A) : IO A := ([], Returned a).

Definition bind {A B} (m : IO A) (k : A -> IO B) : IO B :=
  match m with
  | (t, Returned a) => let '(t', r) := k a in ((t ++ t')%list, r)
  | (t, Panicked p) => (t, Panicked p)
  end.

Definition emit (e : Event) : IO unit := ([e], Returned tt).

Definition lift_outcome {A} (o : Outcome A) : IO A := ([], o).

Notation "x <- m ;; k" := (bind m (fun x => k))
  (at level 100, m at next level, right associativity).
Notation "m ;;; k" := (bind m (fun _ => k))
  (at level 100, right associativity).

Definition trace {A} (m : IO A) : list Event := fst m.
Definition outcome {A} (m : IO A) : Outcome A := snd m.

Lemma bind_lift_Returned {A B} (a : A) (k : A -> IO B) :
  bind (lift_outcome (Returned a)) k = k a.
Proof. unfold bind, lift_outcome. now destruct (k a). Qed.

Lemma outcome_bind_Returned {A B} (m : IO A) (k : A -> IO B) (a : A) :
  outcome m = Returned a -> outcome (bind m k) = outcome (k a).
Proof.
  destruct m as [t o]. unfold outcome. cbn [snd]. intros ->.
  unfold bind. now destruct (k a).
Qed.

Lemma outcome_ret {A} (a : A) : outcome (ret a) = Returned a.
Proof. reflexivity. Qed.

(** Time slept before the first HTTP request of a trace is issued. *)
Fixpoint waited_before_get (t : list Event) : Duration :=
  match t with
  | [] => 0
  | EvSleep d :: t' => d + waited_before_get t'
  | EvHttpGet _ :: _ => 0
  | EvBodyClose :: t' => waited_before_get t'
  end.

(** The HTTP requests of a trace, in order. *)
Fixpoint requests (t : list Event) : list string :=
  match t with
  | [] => []
  | EvHttpGet url :: t' => url :: requests t'
  | _ :: t' => requests t'
  end.

(** ** JSON as [encoding/json] decodes it into [interface{}] *)

Inductive Json : Type :=
| JNull
| JBool (b : bool)
| JNumber (literal : string)          (* float64, kept as its literal *)
| JString (s : string)
| JArray (items : list Json)          (* []interface{} *)
| JObject (fields : gmap string Json). (* map[string]interface{} *)

(** ** mirror_node_gateway.go *)

Module Mirror.

Definition LOCAL_NETWORK : string := "127.0.0.1".
Definition API_VERSION : string := "/api/v1".
Definition PORT : string := ":5551".

Record HttpResponse : Type := mkHttpResponse {
  StatusCode : Z;
  Body : string
}.

(** [client.GetMirrorNetwork()[0]] on a client that may be nil and whose
    mirror network may be empty. *)
Definition fetchMirrorNodeUrlFromClient (client : option Client) : Outcome string :=
  match client with
  | None => Panicked NilDereference
  | Some client =>
      match GetMirrorNetwork client with
      | [] => Panicked IndexOutOfRange
      | first :: _ =>
          if GoStrings.HasPrefix first LOCAL_NETWORK
          then Returned ("http://" ++ LOCAL_NETWORK ++ PORT ++ API_VERSION)
          else Returned ("https://" ++ first ++ API_VERSION)
      end
  end.

(** [networkUrl += "/" + arg] for every parameter. *)
Definition buildUrlParams (networkUrl : string) (params : list string) : string :=
  fold_left (fun networkUrl arg => networkUrl ++ "/" ++ arg) params networkUrl.

Section Gateway.

(** The HTTP transport and the JSON decoder of the standard library. *)
Variable http_Get : string -> Result error HttpResponse.
Variable json_Decode : string -> Result error (gmap string Json).

Definition makeGetRequest (networkUrl : string) : IO (Result error (gmap string Json)) :=
  (if GoStrings.Contains networkUrl LOCAL_NETWORK
   then emit (EvSleep (4 * Second))
   else ret tt) ;;;
  emit (EvHttpGet networkUrl) ;;;
  match http_Get networkUrl with
  | Err err => ret (Err err)
  | Ok resp =>
      (* defer resp.Body.Close() runs on every return below *)
      let result :=
        if (400 <=? StatusCode resp)%Z
        then Err (ErrHTTPStatus (StatusCode resp))
        else
          match json_Decode (Body resp) with
          | Err err => Err err
          | Ok responseMap => Ok responseMap
          end in
      emit EvBodyClose ;;; ret result
  end.

Definition tokenRelationshipMirrorNodeQuery (networkUrl id : string)
  : IO (Result error (gmap string Json)) :=
  makeGetRequest (buildUrlParams networkUrl ["accounts"; id; "tokens"]).

Definition accountInfoMirrorNodeQuery (networkUrl accountId : string)
  : IO (Result error (gmap string Json)) :=
  makeGetRequest (buildUrlParams networkUrl ["accounts"; accountId]).

Definition contractInfoMirrorNodeQuery (networkUrl contractId : string)
  : IO (Result error (gmap string Json)) :=
  makeGetRequest (buildUrlParams networkUrl ["contracts"; contractId]).

(** *** Facts about the gateway *)

Lemma makeGetRequest_unfold (networkUrl : string) :
  makeGetRequest networkUrl
  = ((if GoStrings.Contains networkUrl LOCAL_NETWORK then [EvSleep (4 * Second)] else [])
       ++ EvHttpGet networkUrl
       :: match http_Get networkUrl with
          | Err _ => []
          | Ok _ => [EvBodyClose]
          end,
     Returned
       match http_Get networkUrl with
       | Err err => Err err
       | Ok resp =>
           if 400 <=? StatusCode resp
           then Err (ErrHTTPStatus (StatusCode resp))
           else json_Decode (Body resp)
       end)%list.
Proof.
  unfold makeGetRequest.
  destruct (GoStrings.Contains networkUrl LOCAL_NETWORK);
    destruct (http_Get networkUrl) as [resp|err]; cbn;
    try destruct (400 <=? StatusCode resp);
    try destruct (json_Decode (Body resp)); reflexivity.
Qed.

(** C6.  A fetch from a local deployment (the URL contains the loopback
    address) first sleeps for the enrichment window, 4 seconds, and only then
    issues the HTTP request; for any other URL the request is the very first
    thing that happens and nothing is slept.  Either way exactly one request
    is issued and nothing but closing the body follows it. *)
Theorem sidecar_wait_before_fetch (networkUrl : string) :
  exists after : list Event,
    trace (makeGetRequest networkUrl)
    = ((if GoStrings.Contains networkUrl LOCAL_NETWORK
        then [EvSleep (4 * Second)] else [])
         ++ EvHttpGet networkUrl :: after)%list
    /\ Forall (fun e => e = EvBodyClose) after
    /\ waited_before_get (trace (makeGetRequest networkUrl))
       = (if GoStrings.Contains networkUrl LOCAL_NETWORK then 4 * Second else 0)
    /\ requests (trace (makeGetRequest networkUrl)) = [networkUrl].
Proof.
  rewrite makeGetRequest_unfold. unfold trace. cbn [fst].
  exists (match http_Get networkUrl with Err _ => [] | Ok _ => [EvBodyClose] end).
  split; [reflexivity|].
  destruct (GoStrings.Contains networkUrl LOCAL_NETWORK);
    destruct (http_Get networkUrl); cbn; repeat split; auto.
Qed.

(** C8, as the code has it.  Once the transport has produced a response, a
    status code of 400 or more makes the fetch return the status error and no
    decoded result; any status below 400, successful or not, goes on to the
    JSON decoder, whose result is the fetch's result. *)
Theorem sidecar_status_error (networkUrl : string) (resp : HttpResponse) :
  http_Get networkUrl = Ok resp ->
  (400 <= StatusCode resp ->
   outcome (makeGetRequest networkUrl) = Returned (Err (ErrHTTPStatus (StatusCode resp))))
  /\ (StatusCode resp < 400 ->
      outcome (makeGetRequest networkUrl) = Returned (json_Decode (Body resp))).
Proof.
  intros Hget. rewrite makeGetRequest_unfold. unfold outcome. cbn [snd].
  rewrite Hget. split; intros Hcode.
  - apply Z.leb_le in Hcode. now rewrite Hcode.
  - apply Z.leb_gt in Hcode. now rewrite Hcode.
Qed.

(** *** The other queries of the gateway *)

(** [len(info)] of a map that may be nil. *)
Definition len_map (info : option (gmap string Json)) : nat :=
  match info with
  | None => 0%nat
  | Some m => size m
  end.

(** [accountTokenBalanceMirrorNodeQuery]: the pair [(info, err)] it returns;
    a nil map is [None]. *)
Definition accountTokenBalanceMirrorNodeQuery (networkUrl accountId : string)
  : IO (option (gmap string Json) * option error) :=
  r <- tokenRelationshipMirrorNodeQuery networkUrl accountId ;;
  let '(info, err) :=
    match r with
    | Ok responseMap => (Some responseMap, None)
    | Err err => (None, Some err)
    end in
  if (len_map info =? 0)%nat then ret (None, err) else ret (info, err).

Lemma string_app_assoc (a b c : string) : ((a ++ b) ++ c = a ++ (b ++ c))%string.
Proof.
  induction a as [|x a IH]; [reflexivity|].
  change (String x ((a ++ b) ++ c) = String x (a ++ (b ++ c)))%string. now rewrite IH.
Qed.

Lemma string_app_nil_r (a : string) : (a ++ EmptyString = a)%string.
Proof.
  induction a as [|x a IH]; [reflexivity|].
  change (String x (a ++ EmptyString) = String x a)%string. now rewrite IH.
Qed.

(** The path [buildUrlParams] appends: every parameter after a slash. *)
Fixpoint url_path (params : list string) : string :=
  match params with
  | [] => EmptyString
  | arg :: rest => "/" ++ arg ++ url_path rest
  end.

Lemma HasPrefix_app_l (s t sub : string) :
  GoStrings.HasPrefix s sub = true -> GoStrings.HasPrefix (s ++ t) sub = true.
Proof.
  unfold GoStrings.HasPrefix. revert s.
  induction sub as [|c sub IH]; intros s; [now destruct (s ++ t)%string|].
  destruct s as [|c' s]; [discriminate|].
  change (String c' s ++ t)%string with (String c' (s ++ t)). cbn [String.prefix].
  destruct (ascii_dec c c'); [apply IH | discriminate].
Qed.

Lemma Contains_app_l (s t sub : string) :
  GoStrings.Contains s sub = true -> GoStrings.Contains (s ++ t) sub = true.
Proof.
  induction s as [|c s IH]; cbn [GoStrings.Contains].
  - rewrite orb_false_r. intros H.
    pose proof (HasPrefix_app_l EmptyString t sub H) as H'.
    change (EmptyString ++ t)%string with t in *.
    destruct t; cbn [GoStrings.Contains]; now rewrite H'.
  - intros [H|H]%orb_true_iff.
    + pose proof (HasPrefix_app_l (String c s) t sub H) as H'.
      change (String c s ++ t)%string with (String c (s ++ t)) in *.
      cbn [GoStrings.Contains]. now rewrite H'.
    + change (String c s ++ t)%string with (String c (s ++ t)).
      cbn [GoStrings.Contains]. rewrite (IH H). apply orb_true_r.
Qed.

Lemma Contains_app_r (s t sub : string) :
  GoStrings.Contains t sub = true -> GoStrings.Contains (s ++ t) sub = true.
Proof.
  intros H. induction s as [|c s IH]; [exact H|].
  change (String c s ++ t)%string with (String c (s ++ t)).
  cbn [GoStrings.Contains]. rewrite IH. apply orb_true_r.
Qed.

(** X11.  [buildUrlParams] returns the base URL followed by every parameter
    after a slash, in order; it never changes the base, so with no parameter
    the base comes back and a base that contains the loopback address gives
    a URL that contains it. *)
Theorem buildUrlParams_path (networkUrl : string) (params : list string) :
  buildUrlParams networkUrl params = (networkUrl ++ url_path params)%string
  /\ buildUrlParams networkUrl [] = networkUrl
  /\ GoStrings.HasPrefix (buildUrlParams networkUrl params) networkUrl = true
  /\ (GoStrings.Contains networkUrl LOCAL_NETWORK = true ->
      GoStrings.Contains (buildUrlParams networkUrl params) LOCAL_NETWORK = true).
Proof.
  assert (Hpath : forall ps u, buildUrlParams u ps = (u ++ url_path ps)%string).
  { induction ps as [|arg ps IH]; intros u.
    - cbn. now rewrite string_app_nil_r.
    - change (buildUrlParams u (arg :: ps))
        with (buildUrlParams (u ++ "/" ++ arg)%string ps).
      rewrite IH. cbn [url_path]. now rewrite string_app_assoc. }
  rewrite Hpath. split; [reflexivity|]. split; [reflexivity|]. split.
  - apply GoStrings.HasPrefix_app.
  - apply Contains_app_l.
Qed.

(** X12.  [makeGetRequest] returns a decoded map exactly when the transport
    produced a response, its status is below 400 and its body decodes to that
    map; a transport error is returned as it is. *)
Theorem makeGetRequest_success (networkUrl : string) (m : gmap string Json) :
  (outcome (makeGetRequest networkUrl) = Returned (Ok m)
   <-> exists resp, http_Get networkUrl = Ok resp
                    /\ StatusCode resp < 400
                    /\ json_Decode (Body resp) = Ok m)
  /\ (forall err, http_Get networkUrl = Err err ->
                  outcome (makeGetRequest networkUrl) = Returned (Err err)).
Proof.
  rewrite makeGetRequest_unfold. unfold outcome. cbn [snd]. split.
  - destruct (http_Get networkUrl) as [resp|err].
    + destruct (Z.leb_spec 400 (StatusCode resp)) as [Hge|Hlt].
      * split; [discriminate|]. intros (resp' & [= <-] & Hcode & _). lia.
      * split.
        -- intros [= Hdec]. exists resp. auto.
        -- intros (resp' & [= <-] & _ & Hdec). now rewrite Hdec.
    + split; [discriminate|]. intros (resp' & Hget & _). discriminate.
  - intros err Hget. now rewrite Hget.
Qed.

(** How many times a trace closes a response body. *)
Fixpoint closes (t : list Event) : nat :=
  match t with
  | [] => 0%nat
  | EvBodyClose :: t' => S (closes t')
  | _ :: t' => closes t'
  end.

(** X13.  The response body is closed exactly when there is a response: on
    every path that got one, closing the body is the last thing the fetch
    does, and after a transport error nothing is closed. *)
Theorem makeGetRequest_closes_body (networkUrl : string) :
  match http_Get networkUrl with
  | Ok _ =>
      last (trace (makeGetRequest networkUrl)) = Some EvBodyClose
      /\ closes (trace (makeGetRequest networkUrl)) = 1%nat
  | Err _ => closes (trace (makeGetRequest networkUrl)) = 0%nat
  end.
Proof.
  rewrite makeGetRequest_unfold. unfold trace. cbn [fst].
  destruct (http_Get networkUrl);
    destruct (GoStrings.Contains networkUrl LOCAL_NETWORK); cbn.
  - split; reflexivity.
  - split; reflexivity.
  - reflexivity.
  - reflexivity.
Qed.

(** X14.  [accountTokenBalanceMirrorNodeQuery] never returns an empty map:
    it returns a map only when the mirror node answered with a non-empty
    object, and then no error; an answer that is the empty object comes back
    as neither a map nor an error; an error comes back without a map. *)
Theorem accountTokenBalance_results (networkUrl accountId : string) :
  exists r,
    outcome (tokenRelationshipMirrorNodeQuery networkUrl accountId) = Returned r
    /\ outcome (accountTokenBalanceMirrorNodeQuery networkUrl accountId)
       = Returned
           match r with
           | Ok m => if decide (m = ∅) then (None, None) else (Some m, None)
           | Err err => (None, Some err)
           end
    /\ (forall info err,
           outcome (accountTokenBalanceMirrorNodeQuery networkUrl accountId)
           = Returned (Some info, err) ->
           info <> ∅ /\ err = None /\ r = Ok info).
Proof.
  unfold accountTokenBalanceMirrorNodeQuery, tokenRelationshipMirrorNodeQuery.
  rewrite makeGetRequest_unfold. unfold outcome, bind. cbn [snd].
  set (r := match http_Get _ with Ok resp => _ | Err err => Err err end).
  exists r. split; [reflexivity|].
  destruct r as [m|err]; cbn [len_map].
  - destruct (decide (m = ∅)) as [->|Hne].
    + split; [reflexivity|]. intros info err. discriminate.
    + destruct (Nat.eqb_spec (size m) 0) as [Hsize|Hsize].
      * apply map_size_empty_iff in Hsize. contradiction.
      * split; [reflexivity|]. now intros info err [= <- <-].
  - split; [reflexivity|]. intros info err'. discriminate.
Qed.

End Gateway.

(** X15.  Whether a fetch waits is decided by looking for the loopback
    address anywhere in the URL, while the base URL is chosen by looking at
    the start of the mirror address.  So for a client whose primary mirror
    address contains the loopback address, at the start or elsewhere, every
    token query waits the 4 seconds before its single request, which goes to
    the client's base URL followed by the accounts path. *)
Theorem loopback_anywhere_waits
    (http_Get : string -> Result error HttpResponse)
    (json_Decode : string -> Result error (gmap string Json))
    (client : Client) (first : string) (rest : list string) (id : string) :
  GetMirrorNetwork client = first :: rest ->
  GoStrings.Contains first LOCAL_NETWORK = true ->
  exists url,
    fetchMirrorNodeUrlFromClient (Some client) = Returned url
    /\ waited_before_get (trace (tokenRelationshipMirrorNodeQuery http_Get json_Decode url id))
       = 4 * Second
    /\ requests (trace (tokenRelationshipMirrorNodeQuery http_Get json_Decode url id))
       = [(url ++ "/accounts/" ++ id ++ "/tokens")%string].
Proof.
  intros Hnet Hloop. unfold fetchMirrorNodeUrlFromClient. rewrite Hnet.
  set (url := if GoStrings.HasPrefix first LOCAL_NETWORK
              then ("http://" ++ LOCAL_NETWORK ++ PORT ++ API_VERSION)%string
              else ("https://" ++ first ++ API_VERSION)%string).
  exists url. split; [unfold url; now destruct (GoStrings.HasPrefix first LOCAL_NETWORK)|].
  assert (Hurl : GoStrings.Contains url LOCAL_NETWORK = true).
  { unfold url. destruct (GoStrings.HasPrefix first LOCAL_NETWORK); [reflexivity|].
    apply (Contains_app_r "https://"). now apply Contains_app_l. }
  unfold tokenRelationshipMirrorNodeQuery.
  assert (Hpath : buildUrlParams url ["accounts"; id; "tokens"]
                  = (url ++ "/accounts/" ++ id ++ "/tokens")%string).
  { unfold buildUrlParams. cbn [fold_left]. now rewrite !string_app_assoc. }
  rewrite Hpath, makeGetRequest_unfold. unfold trace. cbn [fst].
  rewrite (Contains_app_l url _ LOCAL_NETWORK Hurl).
  destruct (http_Get _); split; reflexivity.
Qed.

(** C5.  The mirror-node base URL of a client with a primary mirror address:
    the fixed local URL when that address starts with the loopback address,
    otherwise https, the address, and the API version. *)
Theorem mirror_url_derivation (client : Client) (first : string) (rest : list string) :
  GetMirrorNetwork client = first :: rest ->
  fetchMirrorNodeUrlFromClient (Some client)
  = Returned (if GoStrings.HasPrefix first "127.0.0.1"
              then "http://127.0.0.1:5551/api/v1"
              else "https://" ++ first ++ "/api/v1").
Proof.
  intros Hnet. unfold fetchMirrorNodeUrlFromClient. rewrite Hnet.
  now destruct (GoStrings.HasPrefix first LOCAL_NETWORK) eqn:Hp;
    change LOCAL_NETWORK with "127.0.0.1" in Hp; rewrite Hp.
Qed.

Definition testnet_client : Client :=
  {| operator := None;
     client_maxQueryPayment := HbarFromTinybar 100000000;
     autoValidateChecksums := false;
     GetMirrorNetwork := ["testnet.mirrornode.hedera.com:443"] |}.

Definition local_client : Client :=
  {| operator := None;
     client_maxQueryPayment := HbarFromTinybar 100000000;
     autoValidateChecksums := false;
     GetMirrorNetwork := ["127.0.0.1:5600"] |}.

(** A client without any mirror address: the index expression panics. *)
Example mirror_url_without_mirror_network :
  fetchMirrorNodeUrlFromClient
    (Some {| operator := None;
             client_maxQueryPayment := HbarFromTinybar 100000000;
             autoValidateChecksums := false;
             GetMirrorNetwork := [] |})
  = Panicked IndexOutOfRange.
Proof. reflexivity. Qed.

Lemma mirror_url_derivation_witness :
  fetchMirrorNodeUrlFromClient (Some testnet_client)
  = Returned "https://testnet.mirrornode.hedera.com:443/api/v1"
  /\ fetchMirrorNodeUrlFromClient (Some local_client)
     = Returned "http://127.0.0.1:5551/api/v1".
Proof.
  split.
  - exact (mirror_url_derivation testnet_client
             "testnet.mirrornode.hedera.com:443" [] eq_refl).
  - exact (mirror_url_derivation local_client "127.0.0.1:5600" [] eq_refl).
Defined.

(** A decoder that agrees with [encoding/json] on the one body used in the
    examples: the empty object decodes to the empty map. *)
Definition decode_empty_object (body : string) : Result error (gmap string Json) :=
  if String.eqb body "{}" then Ok ∅
  else Err (ErrCollaborator "invalid character").

Definition tokens_url : string :=
  "https://testnet.mirrornode.hedera.com:443/api/v1/accounts/0.0.5/tokens".

Lemma sidecar_status_error_witness :
  outcome (makeGetRequest
             (fun _ => Ok {| StatusCode := 404; Body := "Not Found" |})
             decode_empty_object tokens_url)
  = Returned (Err (ErrHTTPStatus 404)).
Proof.
  refine (proj1 (sidecar_status_error
                   (fun _ => Ok {| StatusCode := 404; Body := "Not Found" |})
                   decode_empty_object tokens_url
                   {| StatusCode := 404; Body := "Not Found" |} eq_refl) _).
  cbn. lia.
Defined.

(** C8 as stated fails: status 300 (Multiple Choices, which the HTTP client
    hands back without following) is outside the 2xx range, yet the fetch
    returns the decoded body and no error. *)
Lemma sidecar_non_2xx_counterexample :
  let resp := {| StatusCode := 300; Body := "{}" |} in
  ~ (200 <= StatusCode resp < 300)
  /\ outcome (makeGetRequest (fun _ => Ok resp) decode_empty_object tokens_url)
     = Returned (Ok ∅).
Proof. cbn zeta. split; [cbn; lia | reflexivity]. Qed.

(** A mirror address that holds the loopback address without starting with
    it: the base URL is the https one, and the fetch still waits. *)
Definition tunnelled_client : Client :=
  {| operator := None;
     client_maxQueryPayment := HbarFromTinybar 100000000;
     autoValidateChecksums := false;
     GetMirrorNetwork := ["mirror.127.0.0.1.nip.io:443"] |}.

Lemma loopback_anywhere_waits_witness :
  exists url,
    fetchMirrorNodeUrlFromClient (Some tunnelled_client) = Returned url
    /\ waited_before_get
         (trace (tokenRelationshipMirrorNodeQuery
                   (fun _ => Err (ErrCollaborator "connection refused"))
                   decode_empty_object url "0.0.5"))
       = 4 * Second
    /\ requests
         (trace (tokenRelationshipMirrorNodeQuery
                   (fun _ => Err (ErrCollaborator "connection refused"))
                   decode_empty_object url "0.0.5"))
       = [(url ++ "/accounts/" ++ "0.0.5" ++ "/tokens")%string].
Proof.
  exact (loopback_anywhere_waits
           (fun _ => Err (ErrCollaborator "connection refused")) decode_empty_object
           tunnelled_client "mirror.127.0.0.1.nip.io:443" [] "0.0.5" eq_refl eq_refl).
Defined.

Example tunnelled_client_url :
  fetchMirrorNodeUrlFromClient (Some tunnelled_client)
  = Returned "https://mirror.127.0.0.1.nip.io:443/api/v1".
Proof. reflexivity. Qed.

End Mirror.

(** ** contract_info_query.go *)

Module ContractQuery.

Import Mirror.

Section ContractInfoQuery.

(** Types declared elsewhere in the SDK: the fields of [ContractInfo] that the
    consensus node answers, a token relationship, a contract identifier, the
    embedded [Query], and the protobuf response with its contract info. *)
Variables ConsensusFields TokenRelationship ContractID Query Response pbContractInfo : Type.

(** [ContractInfo]: what the consensus node answered, and the token
    relationships the mirror node adds.  (A nil and an empty slice are both
    the empty list.) *)
Record ContractInfo : Type := mkContractInfo {
  consensus : ConsensusFields;
  TokenRelationships : list TokenRelationship
}.

Record ContractInfoQuery : Type := mkContractInfoQuery {
  query : Query;
  contractID : option ContractID
}.

(** Functions defined elsewhere in the SDK. *)
Variable zeroConsensusFields : ConsensusFields.
Variable ContractID_String : ContractID -> string.
Variable Query_execute : option Client -> ContractInfoQuery -> Result error Response.
Variable GetContractGetInfo_ContractInfo : Response -> pbContractInfo.
Variable _ContractInfoFromProtobuf : pbContractInfo -> Result error ContractInfo.
Variable TokenRelationshipFromJson : Json -> Result error TokenRelationship.
Variable http_Get : string -> Result error HttpResponse.
Variable json_Decode : string -> Result error (gmap string Json).

(** [ContractInfo{}]. *)
Definition zeroContractInfo : ContractInfo :=
  {| consensus := zeroConsensusFields; TokenRelationships := [] |}.

Definition GetContractID_String (q : ContractInfoQuery) : Outcome string :=
  match contractID q with
  | None => Panicked NilDereference
  | Some id => Returned (ContractID_String id)
  end.

(** The type assertion [response["tokens"].([]interface{})]. *)
Definition tokens_of (response : gmap string Json) : option (list Json) :=
  match response !! "tokens" with
  | Some (JArray tokens) => Some tokens
  | _ => None
  end.

(** The loop over the tokens: [info] is updated in place through its pointer,
    so the relationships appended before a failing entry stay in it. *)
Fixpoint range_tokens (tokens : list Json) (info : ContractInfo)
  : ContractInfo * option error :=
  match tokens with
  | [] => (info, None)
  | token :: rest =>
      match TokenRelationshipFromJson token with
      | Err err => (info, Some err)
      | Ok tr =>
          range_tokens rest
            {| consensus := consensus info;
               TokenRelationships := TokenRelationships info ++ [tr] |}
      end
  end.

(** [fetchContractInfoTokenRelationships(network, id, &info)]: the returned
    pair is the caller's [info] after the call and the error. *)
Definition fetchContractInfoTokenRelationships
    (network id : string) (info : ContractInfo) : IO (ContractInfo * option error) :=
  response <- tokenRelationshipMirrorNodeQuery http_Get json_Decode network id ;;
  match response with
  | Err err => ret (info, Some err)
  | Ok response =>
      let info := {| consensus := consensus info; TokenRelationships := [] |} in
      match tokens_of response with
      | Some tokens => ret (range_tokens tokens info)
      | None => ret (info, None)
      end
  end.

(** [Execute]: Go returns the pair [(ContractInfo, error)], and on the last
    error path both components are meaningful. *)
Definition Execute (q : ContractInfoQuery) (client : option Client)
  : IO (ContractInfo * option error) :=
  match Query_execute client q with
  | Err err => ret (zeroContractInfo, Some err)
  | Ok resp =>
      match _ContractInfoFromProtobuf (GetContractGetInfo_ContractInfo resp) with
      | Err err => ret (zeroContractInfo, Some err)
      | Ok info =>
          network <- lift_outcome (fetchMirrorNodeUrlFromClient client) ;;
          id <- lift_outcome (GetContractID_String q) ;;
          r <- fetchContractInfoTokenRelationships network id info ;;
          match r with
          | (info, Some err) => ret (info, Some err)
          | (info, None) => ret (info, None)
          end
      end
  end.

(** The relationships decoded from the entries that precede the first entry
    the decoder rejects. *)
Fixpoint decoded_prefix (tokens : list Json) : list TokenRelationship :=
  match tokens with
  | [] => []
  | token :: rest =>
      match TokenRelationshipFromJson token with
      | Err _ => []
      | Ok tr => tr :: decoded_prefix rest
      end
  end.

(** The error of the first entry the decoder rejects, if any. *)
Fixpoint first_decode_error (tokens : list Json) : option error :=
  match tokens with
  | [] => None
  | token :: rest =>
      match TokenRelationshipFromJson token with
      | Err err => Some err
      | Ok _ => first_decode_error rest
      end
  end.

Lemma range_tokens_spec (tokens : list Json) (info : ContractInfo) :
  range_tokens tokens info
  = ({| consensus := consensus info;
        TokenRelationships := TokenRelationships info ++ decoded_prefix tokens |},
     first_decode_error tokens).
Proof.
  revert info. induction tokens as [|token rest IH]; intros [c trs]; cbn.
  - now rewrite app_nil_r.
  - destruct (TokenRelationshipFromJson token) as [tr|err].
    + rewrite IH. cbn. now rewrite <- app_assoc.
    + now rewrite app_nil_r.
Qed.

Lemma fetch_outcome_fetch_error (network id : string) (info : ContractInfo) (err : error) :
  outcome (tokenRelationshipMirrorNodeQuery http_Get json_Decode network id)
  = Returned (Err err) ->
  outcome (fetchContractInfoTokenRelationships network id info)
  = Returned (info, Some err).
Proof.
  intros H. unfold fetchContractInfoTokenRelationships.
  now rewrite (outcome_bind_Returned _ _ _ H).
Qed.

Lemma fetch_outcome_decoded (network id : string) (info : ContractInfo)
    (response : gmap string Json) :
  outcome (tokenRelationshipMirrorNodeQuery http_Get json_Decode network id)
  = Returned (Ok response) ->
  outcome (fetchContractInfoTokenRelationships network id info)
  = Returned
      match tokens_of response with
      | Some tokens =>
          ({| consensus := consensus info; TokenRelationships := decoded_prefix tokens |},
           first_decode_error tokens)
      | None => ({| consensus := consensus info; TokenRelationships := [] |}, None)
      end.
Proof.
  intros H. unfold fetchContractInfoTokenRelationships.
  rewrite (outcome_bind_Returned _ _ _ H).
  destruct (tokens_of response) as [tokens|]; [|reflexivity].
  now rewrite outcome_ret, range_tokens_spec.
Qed.

(** Once the consensus answer is decoded and the two arguments of the
    enrichment call are evaluated, [Execute] returns what the enrichment
    leaves in [info] together with its error. *)
Lemma Execute_outcome_enrichment (q : ContractInfoQuery) (client : option Client)
    (resp : Response) (info : ContractInfo) (network id : string) :
  Query_execute client q = Ok resp ->
  _ContractInfoFromProtobuf (GetContractGetInfo_ContractInfo resp) = Ok info ->
  fetchMirrorNodeUrlFromClient client = Returned network ->
  GetContractID_String q = Returned id ->
  outcome (Execute q client)
  = outcome (fetchContractInfoTokenRelationships network id info).
Proof.
  intros Hexec Hpb Hurl Hid. unfold Execute.
  rewrite Hexec, Hpb, Hurl, Hid, !bind_lift_Returned.
  destruct (fetchContractInfoTokenRelationships network id info) as [t [[info' [err|]]|p]];
    reflexivity.
Qed.

(** C7.  When the mirror node answers and the answer's token list is absent
    (no [tokens] entry, or one that is not an array) or empty, the enrichment
    returns no error and leaves the empty list of token relationships in the
    answer, whose consensus fields are untouched; [Execute] returns exactly
    that. *)
Theorem empty_token_list_enriches (q : ContractInfoQuery) (client : option Client)
    (resp : Response) (info : ContractInfo) (network id : string)
    (response : gmap string Json) :
  Query_execute client q = Ok resp ->
  _ContractInfoFromProtobuf (GetContractGetInfo_ContractInfo resp) = Ok info ->
  fetchMirrorNodeUrlFromClient client = Returned network ->
  GetContractID_String q = Returned id ->
  outcome (tokenRelationshipMirrorNodeQuery http_Get json_Decode network id)
  = Returned (Ok response) ->
  tokens_of response = None \/ tokens_of response = Some [] ->
  outcome (fetchContractInfoTokenRelationships network id info)
  = Returned ({| consensus := consensus info; TokenRelationships := [] |}, None)
  /\ outcome (Execute q client)
     = Returned ({| consensus := consensus info; TokenRelationships := [] |}, None).
Proof.
  intros Hexec Hpb Hurl Hid Hfetch Htokens.
  rewrite (Execute_outcome_enrichment q client resp info network id) by assumption.
  rewrite (fetch_outcome_decoded network id info response Hfetch).
  destruct Htokens as [-> | ->]; split; reflexivity.
Qed.

(** C4, as the code has it.  After a decoded consensus answer [info], a
    failing enrichment makes [Execute] return the error together with an
    answer carrying the consensus fields of [info].  When the fetch itself
    fails (transport, status, JSON body) that answer is [info], unenriched.
    When an entry of the token list fails to decode, the answer's token
    relationships are those decoded from the entries before the failing
    one. *)
Theorem partial_enrichment_error (q : ContractInfoQuery) (client : option Client)
    (resp : Response) (info : ContractInfo) (network id : string) :
  Query_execute client q = Ok resp ->
  _ContractInfoFromProtobuf (GetContractGetInfo_ContractInfo resp) = Ok info ->
  fetchMirrorNodeUrlFromClient client = Returned network ->
  GetContractID_String q = Returned id ->
  (forall err,
      outcome (tokenRelationshipMirrorNodeQuery http_Get json_Decode network id)
      = Returned (Err err) ->
      outcome (Execute q client) = Returned (info, Some err))
  /\ (forall response tokens err,
         outcome (tokenRelationshipMirrorNodeQuery http_Get json_Decode network id)
         = Returned (Ok response) ->
         tokens_of response = Some tokens ->
         first_decode_error tokens = Some err ->
         outcome (Execute q client)
         = Returned ({| consensus := consensus info;
                        TokenRelationships := decoded_prefix tokens |},
                     Some err)).
Proof.
  intros Hexec Hpb Hurl Hid.
  rewrite (Execute_outcome_enrichment q client resp info network id) by assumption.
  split.
  - intros err Hfetch. now apply fetch_outcome_fetch_error.
  - intros response tokens err Hfetch Htokens Herr.
    rewrite (fetch_outcome_decoded network id info response Hfetch).
    now rewrite Htokens, Herr.
Qed.

(** *** What [Execute] asks of the mirror node, and what it keeps *)

Lemma tokenRelationshipMirrorNodeQuery_returns (network id : string) :
  exists r,
    outcome (tokenRelationshipMirrorNodeQuery http_Get json_Decode network id) = Returned r.
Proof.
  unfold tokenRelationshipMirrorNodeQuery. rewrite makeGetRequest_unfold.
  unfold outcome. cbn [snd]. eauto.
Qed.

Lemma fetch_requests (network id : string) (info : ContractInfo) :
  requests (trace (fetchContractInfoTokenRelationships network id info))
  = [buildUrlParams network ["accounts"; id; "tokens"]].
Proof.
  unfold fetchContractInfoTokenRelationships, tokenRelationshipMirrorNodeQuery.
  rewrite makeGetRequest_unfold. unfold trace, bind.
  set (r := match http_Get _ with Ok resp => _ | Err err => Err err end).
  destruct r as [response|err]; [destruct (tokens_of response)|]; cbn [fst ret];
    rewrite app_nil_r;
    destruct (GoStrings.Contains _ LOCAL_NETWORK); destruct (http_Get _); reflexivity.
Qed.

Lemma all_tokens_decode (tokens : list Json) (trs : list TokenRelationship) :
  Forall2 (fun token tr => TokenRelationshipFromJson token = Ok tr) tokens trs ->
  decoded_prefix tokens = trs /\ first_decode_error tokens = None.
Proof.
  induction 1 as [|token tr tokens trs Htoken _ [IH1 IH2]]; cbn; [auto|].
  now rewrite Htoken, IH1, IH2.
Qed.

(** X16.  [Execute] makes a single best-effort fetch: it asks the mirror
    node at most once, for the token list of the contract's account, and only
    after the consensus answer is obtained and decoded.  When the consensus
    query or its decoding fails, nothing is requested and the zero
    [ContractInfo] comes back with that error. *)
Theorem Execute_requests (q : ContractInfoQuery) (client : option Client) :
  requests (trace (Execute q client))
  = match Query_execute client q with
    | Err _ => []
    | Ok resp =>
        match _ContractInfoFromProtobuf (GetContractGetInfo_ContractInfo resp),
              fetchMirrorNodeUrlFromClient client, GetContractID_String q with
        | Ok _, Returned network, Returned id =>
            [buildUrlParams network ["accounts"; id; "tokens"]]
        | _, _, _ => []
        end
    end
  /\ (forall err,
         Query_execute client q = Err err
         \/ (exists resp, Query_execute client q = Ok resp
                          /\ _ContractInfoFromProtobuf (GetContractGetInfo_ContractInfo resp)
                             = Err err) ->
         Execute q client = ret (zeroContractInfo, Some err)).
Proof.
  split.
  - unfold Execute.
    destruct (Query_execute client q) as [resp|err]; [|reflexivity].
    destruct (_ContractInfoFromProtobuf _) as [info|err]; [|reflexivity].
    destruct (fetchMirrorNodeUrlFromClient client) as [network|p]; [|reflexivity].
    destruct (GetContractID_String q) as [id|p]; [|reflexivity].
    rewrite !bind_lift_Returned.
    pose proof (fetch_requests network id info) as Hreq.
    destruct (fetchContractInfoTokenRelationships network id info) as [t [[info' [e|]]|p]];
      unfold trace in *; cbn [fst bind ret] in *; try rewrite app_nil_r; exact Hreq.
  - intros err [Hexec | (resp & Hexec & Hpb)]; unfold Execute; rewrite Hexec;
      [reflexivity | now rewrite Hpb].
Qed.

(** X17.  When the mirror node answers with a token list whose entries all
    decode, [Execute] returns, without error, the consensus answer with
    exactly the decoded relationships, in the order of the list; whatever
    relationships the consensus answer carried are replaced. *)
Theorem Execute_enriched (q : ContractInfoQuery) (client : option Client)
    (resp : Response) (info : ContractInfo) (network id : string)
    (response : gmap string Json) (tokens : list Json) (trs : list TokenRelationship) :
  Query_execute client q = Ok resp ->
  _ContractInfoFromProtobuf (GetContractGetInfo_ContractInfo resp) = Ok info ->
  fetchMirrorNodeUrlFromClient client = Returned network ->
  GetContractID_String q = Returned id ->
  outcome (tokenRelationshipMirrorNodeQuery http_Get json_Decode network id)
  = Returned (Ok response) ->
  tokens_of response = Some tokens ->
  Forall2 (fun token tr => TokenRelationshipFromJson token = Ok tr) tokens trs ->
  outcome (Execute q client)
  = Returned ({| consensus := consensus info; TokenRelationships := trs |}, None).
Proof.
  intros Hexec Hpb Hurl Hid Hfetch Htokens Hall.
  rewrite (Execute_outcome_enrichment q client resp info network id) by assumption.
  rewrite (fetch_outcome_decoded network id info response Hfetch), Htokens.
  now destruct (all_tokens_decode tokens trs Hall) as [-> ->].
Qed.

(** X18.  Once the consensus answer is decoded and the arguments of the
    enrichment are evaluated, [Execute] always returns, and the answer it
    returns has the consensus fields of the decoded answer, whatever the
    mirror node does; when it returns no error, the mirror node answered. *)
Theorem Execute_keeps_consensus_fields (q : ContractInfoQuery) (client : option Client)
    (resp : Response) (info : ContractInfo) (network id : string) :
  Query_execute client q = Ok resp ->
  _ContractInfoFromProtobuf (GetContractGetInfo_ContractInfo resp) = Ok info ->
  fetchMirrorNodeUrlFromClient client = Returned network ->
  GetContractID_String q = Returned id ->
  exists answer err,
    outcome (Execute q client) = Returned (answer, err)
    /\ consensus answer = consensus info
    /\ (err = None ->
        exists response,
          outcome (tokenRelationshipMirrorNodeQuery http_Get json_Decode network id)
          = Returned (Ok response)).
Proof.
  intros Hexec Hpb Hurl Hid.
  rewrite (Execute_outcome_enrichment q client resp info network id) by assumption.
  destruct (tokenRelationshipMirrorNodeQuery_returns network id) as [[response|e] Hr].
  - rewrite (fetch_outcome_decoded network id info response Hr).
    destruct (tokens_of response) as [tokens|]; eexists _, _;
      (split; [reflexivity|]); split; eauto.
  - rewrite (fetch_outcome_fetch_error network id info e Hr).
    eexists _, _. split; [reflexivity|]. split; [reflexivity|]. discriminate.
Qed.

End ContractInfoQuery.

Arguments mkContractInfo {ConsensusFields TokenRelationship} consensus TokenRelationships.
Arguments mkContractInfoQuery {ContractID Query} query contractID.

(** *** A scripted run

    The consensus node answers a contract whose only consensus field is its
    memo; a token relationship is reduced to its token id; the transport
    answers every request with one fixed response. *)

Definition scripted_TokenRelationshipFromJson (token : Json) : Result error string :=
  match token with
  | JObject fields =>
      match fields !! "token_id" with
      | Some (JString id) => Ok id
      | _ => Err (ErrCollaborator "invalid token_id")
      end
  | _ => Err (ErrCollaborator "invalid token object")
  end.

Definition scripted_info : ContractInfo string string :=
  mkContractInfo "a memo" [].

Definition scripted_query : ContractInfoQuery string unit :=
  mkContractInfoQuery tt (Some "0.0.5").

(** The consensus node's answer decodes to a contract info with no token
    relationship. *)
Definition scripted_ContractInfoFromProtobuf (memo : string)
  : Result error (ContractInfo string string) :=
  Ok (mkContractInfo memo []).

Definition scripted_contract_Execute
    (http_Get : string -> Result error HttpResponse)
    (json_Decode : string -> Result error (gmap string Json))
  : IO (ContractInfo string string * option error) :=
  Execute string string string unit string string
    EmptyString (fun id => id) (fun _ _ => Ok "a memo") (fun r => r)
    scripted_ContractInfoFromProtobuf
    scripted_TokenRelationshipFromJson http_Get json_Decode
    scripted_query (Some testnet_client).

(** A JSON string literal. *)
Definition quoted (s : string) : string :=
  String (ascii_of_N 34) s ++ String (ascii_of_N 34) EmptyString.

(** A token list whose first entry is a token object and whose second is the
    number 5, its text, and a decoder that agrees with [encoding/json] on
    that text and on the empty object. *)
Definition two_tokens : gmap string Json :=
  {[ "tokens" := JArray [JObject {[ "token_id" := JString "0.0.7" ]}; JNumber "5"] ]}.

Definition two_tokens_body : string :=
  "{" ++ quoted "tokens" ++ ":[{" ++ quoted "token_id" ++ ":" ++ quoted "0.0.7" ++ "},5]}".

Definition scripted_json_Decode (body : string) : Result error (gmap string Json) :=
  if String.eqb body two_tokens_body then Ok two_tokens
  else decode_empty_object body.

Definition respond (code : Z) (body : string) (url : string) : Result error HttpResponse :=
  Ok {| StatusCode := code; Body := body |}.

Lemma partial_enrichment_error_witness :
  outcome (scripted_contract_Execute (respond 503 "Service Unavailable") scripted_json_Decode)
  = Returned (scripted_info, Some (ErrHTTPStatus 503))
  /\ outcome (scripted_contract_Execute (respond 200 two_tokens_body) scripted_json_Decode)
     = Returned (mkContractInfo "a memo" ["0.0.7"],
                 Some (ErrCollaborator "invalid token object")).
Proof.
  split.
  - exact (proj1 (partial_enrichment_error string string string unit string string
                    EmptyString (fun id => id) (fun _ _ => Ok "a memo") (fun r => r)
                    scripted_ContractInfoFromProtobuf
                    scripted_TokenRelationshipFromJson
                    (respond 503 "Service Unavailable") scripted_json_Decode
                    scripted_query (Some testnet_client) "a memo" scripted_info
                    "https://testnet.mirrornode.hedera.com:443/api/v1" "0.0.5"
                    eq_refl eq_refl eq_refl eq_refl)
             (ErrHTTPStatus 503) eq_refl).
  - exact (proj2 (partial_enrichment_error string string string unit string string
                    EmptyString (fun id => id) (fun _ _ => Ok "a memo") (fun r => r)
                    scripted_ContractInfoFromProtobuf
                    scripted_TokenRelationshipFromJson
                    (respond 200 two_tokens_body) scripted_json_Decode
                    scripted_query (Some testnet_client) "a memo" scripted_info
                    "https://testnet.mirrornode.hedera.com:443/api/v1" "0.0.5"
                    eq_refl eq_refl eq_refl eq_refl)
             two_tokens
             [JObject {[ "token_id" := JString "0.0.7" ]}; JNumber "5"]
             (ErrCollaborator "invalid token object")
             eq_refl eq_refl eq_refl).
Defined.

(** C4 as stated fails: the consensus answer carries no token relationship,
    the second entry of the mirror node's token list does not decode, and
    [Execute] returns the error with an answer that already holds the first
    entry's relationship, which is not the unenriched consensus answer. *)
Lemma partial_enrichment_counterexample :
  scripted_ContractInfoFromProtobuf "a memo" = Ok scripted_info
  /\ exists answer err,
      outcome (scripted_contract_Execute (respond 200 two_tokens_body) scripted_json_Decode)
      = Returned (answer, Some err)
      /\ TokenRelationships _ _ answer = ["0.0.7"]
      /\ answer <> scripted_info.
Proof.
  split; [reflexivity|].
  exists (mkContractInfo "a memo" ["0.0.7"]), (ErrCollaborator "invalid token object").
  split; [vm_compute; reflexivity|]. split; [reflexivity|discriminate].
Qed.

Lemma empty_token_list_enriches_witness :
  outcome (fetchContractInfoTokenRelationships string string
             scripted_TokenRelationshipFromJson (respond 200 "{}") scripted_json_Decode
             "https://testnet.mirrornode.hedera.com:443/api/v1" "0.0.5" scripted_info)
  = Returned (mkContractInfo "a memo" [], None)
  /\ outcome (scripted_contract_Execute (respond 200 "{}") scripted_json_Decode)
     = Returned (mkContractInfo "a memo" [], None).
Proof.
  exact (empty_token_list_enriches string string string unit string string
           EmptyString (fun id => id) (fun _ _ => Ok "a memo") (fun r => r)
           scripted_ContractInfoFromProtobuf
           scripted_TokenRelationshipFromJson
           (respond 200 "{}") scripted_json_Decode
           scripted_query (Some testnet_client) "a memo" scripted_info
           "https://testnet.mirrornode.hedera.com:443/api/v1" "0.0.5" ∅
           eq_refl eq_refl eq_refl eq_refl eq_refl (or_introl eq_refl)).
Defined.

(** A token list with one token object. *)
Definition one_token : gmap string Json :=
  {[ "tokens" := JArray [JObject {[ "token_id" := JString "0.0.7" ]}] ]}.

Lemma Execute_enriched_witness :
  outcome (scripted_contract_Execute (respond 200 "{}") (fun _ => Ok one_token))
  = Returned (mkContractInfo "a memo" ["0.0.7"], None).
Proof.
  refine (Execute_enriched string string string unit string string
           EmptyString (fun id => id) (fun _ _ => Ok "a memo") (fun r => r)
           scripted_ContractInfoFromProtobuf
           scripted_TokenRelationshipFromJson
           (respond 200 "{}") (fun _ => Ok one_token)
           scripted_query (Some testnet_client) "a memo" scripted_info
           "https://testnet.mirrornode.hedera.com:443/api/v1" "0.0.5" one_token
           [JObject {[ "token_id" := JString "0.0.7" ]}] ["0.0.7"]
           eq_refl eq_refl eq_refl eq_refl eq_refl eq_refl _).
  repeat constructor.
Defined.

Lemma Execute_keeps_consensus_fields_witness :
  exists answer err,
    outcome (scripted_contract_Execute (respond 503 "Service Unavailable")
               scripted_json_Decode)
    = Returned (answer, err)
    /\ consensus _ _ answer = "a memo".
Proof.
  destruct (Execute_keeps_consensus_fields string string string unit string string
              EmptyString (fun id => id) (fun _ _ => Ok "a memo") (fun r => r)
              scripted_ContractInfoFromProtobuf
              scripted_TokenRelationshipFromJson
              (respond 503 "Service Unavailable") scripted_json_Decode
              scripted_query (Some testnet_client) "a memo" scripted_info
              "https://testnet.mirrornode.hedera.com:443/api/v1" "0.0.5"
              eq_refl eq_refl eq_refl eq_refl) as (answer & err & Hout & Hfields & _).
  exists answer, err. split; [exact Hout | exact Hfields].
Defined.

End ContractQuery.

(** ** The execution engine's retry loop *)

Module Engine.

(** How the engine classifies a node's response (or the failure to get one). *)
Inductive Classification : Type :=
| Transient           (* transport failure, busy, platform not active, unknown *)
| NodeSpecificRetry   (* wrong node, node account unusable *)
| Fatal               (* invalid signature, insufficient balance, rejection *)
| Accepted.           (* the accepted/ok marker *)

Record Config : Type := mkConfig {
  cfg_minBackoff : Duration;
  cfg_maxBackoff : Duration;
  cfg_maxRetry : nat
}.

(** Per-call state: the snapshot of candidate nodes, the cursor into it, the
    attempt counter and the computed backoff duration. *)
Record ExecutionContext : Type := mkExecutionContext {
  candidates : list AccountID;
  cursor : nat;
  attempt : nat;
  backoff : Duration
}.

Inductive EngineEvent : Type :=
| Send (node : option AccountID)   (* the request goes to candidates[cursor] *)
| Backoff (d : Duration).          (* the call sleeps for d *)

Inductive Terminal : Type :=
| Done (node : option AccountID)
| FailedFatal
| RetriesExhausted
| Sending.   (* the responses seen so far leave the call in flight *)

(** Modelled from the spec: the [Ready] state of the engine, which is not
    among the source files.  The candidate list is snapshotted, the attempt
    counter is 0 and the backoff starts from the configured minimum. *)
Definition Ready (cfg : Config) (nodes : list AccountID) : ExecutionContext :=
  {| candidates := nodes; cursor := 0; attempt := 0; backoff := cfg_minBackoff cfg |}.

(** Modelled from the spec: the backoff computed on a retry, which is not
    among the source files: [min(maxBackoff, currentBackoff * 2)]. *)
Definition next_backoff (cfg : Config) (currentBackoff : Duration) : Duration :=
  Z.min (cfg_maxBackoff cfg) (currentBackoff * 2).

(** The cursor moves to the next candidate, wrapping around. *)
Definition advance_cursor (ctx : ExecutionContext) : nat :=
  (S (cursor ctx) mod length (candidates ctx))%nat.

(** Modelled from the spec: the retry loop of [_Execute], which is not among
    the source files (section 4.3).  Each element of [responses] is the
    classification of the answer to one [Sending].  A transient answer
    increments the attempt counter, fails with retries exhausted once the
    counter exceeds the maximum, and otherwise computes the next backoff as
    [min(maxBackoff, currentBackoff * 2)], sleeps that long and advances the
    cursor; a node-specific retry advances the cursor and leaves the backoff
    alone; a fatal answer fails at once; an accepted answer ends the call. *)
Fixpoint run (cfg : Config) (responses : list Classification) (ctx : ExecutionContext)
  : list EngineEvent * Terminal :=
  match responses with
  | [] => ([], Sending)
  | response :: rest =>
      let node := candidates ctx !! cursor ctx in
      match response with
      | Accepted => ([Send node], Done node)
      | Fatal => ([Send node], FailedFatal)
      | NodeSpecificRetry =>
          let '(t, r) :=
            run cfg rest
              {| candidates := candidates ctx; cursor := advance_cursor ctx;
                 attempt := attempt ctx; backoff := backoff ctx |} in
          (Send node :: t, r)
      | Transient =>
          if (cfg_maxRetry cfg <? S (attempt ctx))%nat
          then ([Send node], RetriesExhausted)
          else
            let next := next_backoff cfg (backoff ctx) in
            let '(t, r) :=
              run cfg rest
                {| candidates := candidates ctx; cursor := advance_cursor ctx;
                   attempt := S (attempt ctx); backoff := next |} in
            (Send node :: Backoff next :: t, r)
      end
  end.

(** One call: from [Ready] through the given responses. *)
Definition call (cfg : Config) (nodes : list AccountID) (responses : list Classification)
  : list EngineEvent * Terminal :=
  run cfg responses (Ready cfg nodes).

(** The backoff durations of a trace, in the order they were slept. *)
Fixpoint backoffs (t : list EngineEvent) : list Duration :=
  match t with
  | [] => []
  | Backoff d :: t' => d :: backoffs t'
  | Send _ :: t' => backoffs t'
  end.

(** Every consecutive pair of a sequence of backoffs lies, in order, between
    the two bounds. *)
Definition consecutive_bounded (lo hi : Duration) (l : list Duration) : Prop :=
  forall (i : nat) (a b : Duration),
    l !! i = Some a -> l !! S i = Some b -> lo <= a /\ a <= b /\ b <= hi.

Lemma next_backoff_bounds (cfg : Config) (b : Duration) :
  0 <= cfg_minBackoff cfg <= cfg_maxBackoff cfg ->
  cfg_minBackoff cfg <= b <= cfg_maxBackoff cfg ->
  b <= next_backoff cfg b <= cfg_maxBackoff cfg.
Proof. unfold next_backoff. lia. Qed.

(** From any context whose backoff is within the bounds, every later sleep
    is at least the current backoff and at most the maximum, and the sleeps
    never decrease. *)
Lemma run_backoffs (cfg : Config) (responses : list Classification) :
  0 <= cfg_minBackoff cfg <= cfg_maxBackoff cfg ->
  forall ctx,
    cfg_minBackoff cfg <= backoff ctx <= cfg_maxBackoff cfg ->
    Forall (fun d => backoff ctx <= d <= cfg_maxBackoff cfg)
      (backoffs (fst (run cfg responses ctx)))
    /\ Sorted Z.le (backoffs (fst (run cfg responses ctx))).
Proof.
  intros Hcfg. induction responses as [|response rest IH]; intros ctx Hctx.
  - cbn. split; constructor.
  - cbn [run]. destruct response.
    + destruct (cfg_maxRetry cfg <? S (attempt ctx))%nat.
      * cbn. split; constructor.
      * pose proof (next_backoff_bounds cfg (backoff ctx) Hcfg Hctx) as Hnext.
        specialize (IH {| candidates := candidates ctx; cursor := advance_cursor ctx;
                          attempt := S (attempt ctx);
                          backoff := next_backoff cfg (backoff ctx) |}).
        destruct (run cfg rest _) as [t r]. cbn in IH |- *.
        destruct IH as [Hall Hsorted]; [lia|]. split.
        -- constructor; [lia|]. eapply Forall_impl; [exact Hall|]. cbn. lia.
        -- constructor; [exact Hsorted|].
           destruct Hall; constructor. lia.
    + specialize (IH {| candidates := candidates ctx; cursor := advance_cursor ctx;
                        attempt := attempt ctx; backoff := backoff ctx |} Hctx).
      destruct (run cfg rest _) as [t r]. exact IH.
    + cbn. split; constructor.
    + cbn. split; constructor.
Qed.

Lemma Sorted_consecutive (lo hi : Duration) (l : list Duration) :
  Forall (fun d => lo <= d <= hi) l -> Sorted Z.le l -> consecutive_bounded lo hi l.
Proof.
  intros Hall Hsorted. induction Hsorted as [|a l Hl IH Hhd]; intros i x y Hx Hy.
  - discriminate.
  - inversion Hall as [|? ? Ha Hl']; subst.
    destruct i as [|i].
    + cbn in Hx, Hy. inversion Hx; subst x.
      destruct l as [|b l]; [discriminate|]. cbn in Hy. inversion Hy; subst y.
      inversion Hhd; subst. inversion Hl'; subst. lia.
    + exact (IH Hl' i x y Hx Hy).
Qed.

End Engine.

(** ** account_info_query.go *)

Module AccountInfo.

(** The conversion [int64(x)] of a 64-bit value: reduction modulo 2^64 into
    the signed range. *)
Definition int64 (x : Z) : Z := (x + 2 ^ 63) mod 2 ^ 64 - 2 ^ 63.

Lemma int64_small (x : Z) : 0 <= x < 2 ^ 63 -> int64 x = x.
Proof. intros H. unfold int64. rewrite Z.mod_small; lia. Qed.

(** Which pair of request functions is handed to [_Execute]:
    [_CostQueryMakeRequest]/[_CostQueryAdvanceRequest] for the cost probe,
    [_QueryMakeRequest]/[_QueryAdvanceRequest] for the paid query. *)
Inductive RequestKind : Type := CostQuery | PaidQuery.

Section AccountInfoQuery.

(** Types declared elsewhere in the SDK: a signed payment transaction, a
    transaction id, the protobuf response and its account info, and the
    decoded [AccountInfo]. *)
Variables Transaction TransactionID Response pbAccountInfo AccountInfo : Type.

(** [AccountInfoQuery] with the fields of the embedded [Query] that this file
    reads or writes.  [pb] is the built [CryptoGetInfo] query: its account
    id, once built. *)
Record AccountInfoQuery : Type := mkAccountInfoQuery {
  nodeAccountIDs : list AccountID;
  paymentTransactions : list Transaction;
  paymentTransactionID : TransactionID;
  nextPaymentTransactionIndex : Z;
  queryPayment : Hbar;
  maxQueryPayment : Hbar;
  maxBackoff : option Duration;
  minBackoff : option Duration;
  pb : option (option AccountID);
  accountID : option AccountID
}.

Definition with_nodeAccountIDs (ids : list AccountID) (q : AccountInfoQuery) :=
  mkAccountInfoQuery ids (paymentTransactions q) (paymentTransactionID q)
    (nextPaymentTransactionIndex q) (queryPayment q) (maxQueryPayment q)
    (maxBackoff q) (minBackoff q) (pb q) (accountID q).

Definition with_paymentTransactions (txs : list Transaction) (q : AccountInfoQuery) :=
  mkAccountInfoQuery (nodeAccountIDs q) txs (paymentTransactionID q)
    (nextPaymentTransactionIndex q) (queryPayment q) (maxQueryPayment q)
    (maxBackoff q) (minBackoff q) (pb q) (accountID q).

Definition with_paymentTransactionID (id : TransactionID) (q : AccountInfoQuery) :=
  mkAccountInfoQuery (nodeAccountIDs q) (paymentTransactions q) id
    (nextPaymentTransactionIndex q) (queryPayment q) (maxQueryPayment q)
    (maxBackoff q) (minBackoff q) (pb q) (accountID q).

Definition with_nextPaymentTransactionIndex (i : Z) (q : AccountInfoQuery) :=
  mkAccountInfoQuery (nodeAccountIDs q) (paymentTransactions q) (paymentTransactionID q)
    i (queryPayment q) (maxQueryPayment q)
    (maxBackoff q) (minBackoff q) (pb q) (accountID q).

Definition with_maxBackoff (d : option Duration) (q : AccountInfoQuery) :=
  mkAccountInfoQuery (nodeAccountIDs q) (paymentTransactions q) (paymentTransactionID q)
    (nextPaymentTransactionIndex q) (queryPayment q) (maxQueryPayment q)
    d (minBackoff q) (pb q) (accountID q).

Definition with_minBackoff (d : option Duration) (q : AccountInfoQuery) :=
  mkAccountInfoQuery (nodeAccountIDs q) (paymentTransactions q) (paymentTransactionID q)
    (nextPaymentTransactionIndex q) (queryPayment q) (maxQueryPayment q)
    (maxBackoff q) d (pb q) (accountID q).

Definition with_pb (p : option (option AccountID)) (q : AccountInfoQuery) :=
  mkAccountInfoQuery (nodeAccountIDs q) (paymentTransactions q) (paymentTransactionID q)
    (nextPaymentTransactionIndex q) (queryPayment q) (maxQueryPayment q)
    (maxBackoff q) (minBackoff q) p (accountID q).

(** *** Setters and getters *)

Definition SetAccountID (id : AccountID) (q : AccountInfoQuery) : AccountInfoQuery :=
  mkAccountInfoQuery (nodeAccountIDs q) (paymentTransactions q) (paymentTransactionID q)
    (nextPaymentTransactionIndex q) (queryPayment q) (maxQueryPayment q)
    (maxBackoff q) (minBackoff q) (pb q) (Some id).

Definition GetAccountID (q : AccountInfoQuery) : AccountID :=
  match accountID q with
  | None => mkAccountID 0 0 0
  | Some id => id
  end.

Definition SetNodeAccountIDs (ids : list AccountID) (q : AccountInfoQuery) : AccountInfoQuery :=
  with_nodeAccountIDs ids q.

Definition SetQueryPayment (queryPayment' : Hbar) (q : AccountInfoQuery) : AccountInfoQuery :=
  mkAccountInfoQuery (nodeAccountIDs q) (paymentTransactions q) (paymentTransactionID q)
    (nextPaymentTransactionIndex q) queryPayment' (maxQueryPayment q)
    (maxBackoff q) (minBackoff q) (pb q) (accountID q).

Definition SetMaxQueryPayment (queryMaxPayment : Hbar) (q : AccountInfoQuery) : AccountInfoQuery :=
  mkAccountInfoQuery (nodeAccountIDs q) (paymentTransactions q) (paymentTransactionID q)
    (nextPaymentTransactionIndex q) (queryPayment q) queryMaxPayment
    (maxBackoff q) (minBackoff q) (pb q) (accountID q).

(** [d.Nanoseconds()] through a [*time.Duration]: a nil pointer faults. *)
Definition Nanoseconds (d : option Duration) : Outcome Z :=
  match d with
  | None => Panicked NilDereference
  | Some d => Returned d
  end.

Definition SetMaxBackoff (max : Duration) (q : AccountInfoQuery) : Outcome AccountInfoQuery :=
  if max <? 0 then Panicked (PanicMsg "maxBackoff must be a positive duration")
  else
    match Nanoseconds (minBackoff q) with
    | Panicked p => Panicked p
    | Returned min =>
        if max <? min
        then Panicked (PanicMsg "maxBackoff must be greater than or equal to minBackoff")
        else Returned (with_maxBackoff (Some max) q)
    end.

Definition GetMaxBackoff (q : AccountInfoQuery) : Duration :=
  match maxBackoff q with
  | Some d => d
  | None => 8 * Second
  end.

Definition SetMinBackoff (min : Duration) (q : AccountInfoQuery) : Outcome AccountInfoQuery :=
  if min <? 0 then Panicked (PanicMsg "minBackoff must be a positive duration")
  else
    match Nanoseconds (maxBackoff q) with
    | Panicked p => Panicked p
    | Returned max =>
        if max <? min
        then Panicked (PanicMsg "minBackoff must be less than or equal to maxBackoff")
        else Returned (with_minBackoff (Some min) q)
    end.

Definition GetMinBackoff (q : AccountInfoQuery) : Duration :=
  match minBackoff q with
  | Some d => d
  | None => 250 * Millisecond
  end.

(** *** The query as mutable state *)

(** A request handed to the engine: its kind, and the payment transactions
    the query held at that moment. *)
Record SentRequest : Type := mkSentRequest {
  sent_kind : RequestKind;
  sent_payments : list Transaction
}.

(** The query object behind the receiver pointer, and the requests handed to
    the engine so far. *)
Record State : Type := mkState {
  query : AccountInfoQuery;
  sent : list SentRequest
}.

(** A method on [*query] that returns [(A, error)]. *)
Definition Q (A : Type) : Type := State -> State * Result error A.

Definition qret {A} (a : A) : Q A := fun st => (st, Ok a).
Definition qfail {A} (e : error) : Q A := fun st => (st, Err e).
Definition qbind {A B} (m : Q A) (k : A -> Q B) : Q B :=
  fun st =>
    match m st with
    | (st', Ok a) => k a st'
    | (st', Err e) => (st', Err e)
    end.
Definition get : Q AccountInfoQuery := fun st => (st, Ok (query st)).
Definition modify (f : AccountInfoQuery -> AccountInfoQuery) : Q unit :=
  fun st => (mkState (f (query st)) (sent st), Ok tt).
Definition lift {A} (r : Result error A) : Q A := fun st => (st, r).
Definition check (err : option error) : Q unit :=
  fun st => match err with Some e => (st, Err e) | None => (st, Ok tt) end.

Notation "'do' x <- m ; k" := (qbind m (fun x => k))
  (at level 10, x name, m at level 100, k at level 200).
Notation "'do' '_' <- m ; k" := (qbind m (fun _ => k))
  (at level 10, m at level 100, k at level 200).

(** Functions defined elsewhere in the SDK. *)
Variable zeroTransactionID : TransactionID.   (* TransactionID{} *)
Variable _GetNodeAccountIDsForExecute : Client -> Result error (list AccountID).
Variable ValidateChecksum : AccountID -> Client -> option error.
Variable TransactionIDGenerate : AccountID -> TransactionID.
Variable _QueryMakePaymentTransaction :
  TransactionID -> AccountID -> Operator -> Hbar -> Result error Transaction.
Variable _Execute :
  Client -> AccountInfoQuery -> RequestKind -> AccountInfoQuery * Result error Response.
Variable Header_Cost : Response -> Z.          (* the uint64 header field Cost *)
Variable Response_AccountInfo : Response -> pbAccountInfo.
Variable _AccountInfoFromProtobuf : pbAccountInfo -> Result error AccountInfo.

(** [_Execute(client, _Request{query: &query.Query}, ...)]: the engine works
    on the query through its pointer and returns a response or an error. *)
Definition engine (client : Client) (kind : RequestKind) : Q Response :=
  fun st =>
    let '(query', r) := _Execute client (query st) kind in
    (mkState query'
       (sent st ++ [{| sent_kind := kind; sent_payments := paymentTransactions (query st) |}]),
     r).

Definition _ValidateNetworkOnIDs (client : option Client) (q : AccountInfoQuery)
  : option error :=
  match client with
  | None => None
  | Some client =>
      if negb (autoValidateChecksums client) then None
      else
        match accountID q with
        | Some id => ValidateChecksum id client
        | None => None
        end
  end.

(** [_Build]: the account id is copied into the protobuf when it is set. *)
Definition _Build (q : AccountInfoQuery) : option AccountID := accountID q.

(** The prelude shared by [GetCost] and [Execute]: node account ids are
    taken from the client's network when the query has none, then the ids
    are validated. *)
Definition resolveAndValidate (client : Client) : Q unit :=
  do q <- get ;
  do _ <- (if (length (nodeAccountIDs q) =? 0)%nat
           then do nodeAccountIDs <- lift (_GetNodeAccountIDsForExecute client) ;
                modify (SetNodeAccountIDs nodeAccountIDs)
           else qret tt) ;
  do q <- get ;
  check (_ValidateNetworkOnIDs (Some client) q).

(** [for range query.nodeAccountIDs]: one empty payment per node, appended
    to the payment transactions. *)
Fixpoint costPayments (op : Operator) (nodes : list AccountID) : Q unit :=
  match nodes with
  | [] => qret tt
  | _ :: rest =>
      do paymentTransaction <-
        lift (_QueryMakePaymentTransaction zeroTransactionID (mkAccountID 0 0 0) op
                (HbarFromTinybar 0)) ;
      do _ <- modify (fun q =>
                with_paymentTransactions (paymentTransactions q ++ [paymentTransaction]) q) ;
      costPayments op rest
  end.

(** [GetCost] up to the cost probe (lines 85 to 112). *)
Definition prepareCostQuery (client : Client) (op : Operator) : Q unit :=
  do _ <- resolveAndValidate client ;
  do q <- get ;
  do _ <- costPayments op (nodeAccountIDs q) ;
  modify (fun q => with_pb (Some (_Build q)) q).

(** The floor applied to the probe's answer (lines 132 to 137). *)
Definition flooredCost (resp : Response) : Hbar :=
  let cost := int64 (Header_Cost resp) in
  if cost <? 25 then HbarFromTinybar 25 else HbarFromTinybar cost.

Definition GetCost (client : option Client) : Q Hbar :=
  match client with
  | None => qfail errNoClientProvided
  | Some client =>
      match operator client with
      | None => qfail errNoClientProvided
      | Some op =>
          do _ <- prepareCostQuery client op ;
          do resp <- engine client CostQuery ;
          qret (flooredCost resp)
      end
  end.

(** Modelled from the spec: the loop of [_QueryGeneratePayments], which is
    not among the source files.  One payment authorization per candidate
    node, each for the query's payment transaction id, that node, the
    operator and the given amount (sections 3 and 4.2); the first failure
    aborts. *)
Fixpoint generatePayments (id : TransactionID) (op : Operator) (cost : Hbar)
    (nodes : list AccountID) : Q unit :=
  match nodes with
  | [] => qret tt
  | nodeID :: rest =>
      do transaction <- lift (_QueryMakePaymentTransaction id nodeID op cost) ;
      do _ <- modify (fun q =>
                with_paymentTransactions (paymentTransactions q ++ [transaction]) q) ;
      generatePayments id op cost rest
  end.

(** Modelled from the spec: [_QueryGeneratePayments(&query.Query, client,
    cost)], which is not among the source files, for a client whose operator
    is [op]: the payments above for the query's nodes. *)
Definition _QueryGeneratePayments (op : Operator) (cost : Hbar) : Q unit :=
  do q <- get ;
  generatePayments (paymentTransactionID q) op cost (nodeAccountIDs q).

(** The ceiling a quote is compared with: the query's own maximum, or the
    client's when the query has none. *)
Definition ceiling (client : Client) (q : AccountInfoQuery) : Hbar :=
  if tinybar (maxQueryPayment q) =? 0
  then client_maxQueryPayment client
  else maxQueryPayment q.

(** [Execute] up to the choice of the cost (lines 169 to 182). *)
Definition prepareExecute (client : Client) (op : Operator) : Q unit :=
  do _ <- resolveAndValidate client ;
  modify (with_paymentTransactionID (TransactionIDGenerate (operator_accountID op))).

(** The choice of the cost (lines 184 to 208). *)
Definition authorize (client : Client) : Q Hbar :=
  do q <- get ;
  if negb (tinybar (queryPayment q) =? 0)
  then qret (queryPayment q)
  else
    let cost := ceiling client q in
    do actualCost <- GetCost (Some client) ;
    if tinybar cost <? tinybar actualCost
    then qfail (ErrMaxQueryPaymentExceeded actualCost cost "AccountInfoQuery")
    else qret actualCost.

(** Payment generation and the paid query (lines 210 to 242). *)
Definition payAndSend (client : Client) (op : Operator) (cost : Hbar) : Q AccountInfo :=
  do _ <- modify (with_nextPaymentTransactionIndex 0) ;
  do _ <- modify (with_paymentTransactions []) ;
  do _ <- _QueryGeneratePayments op cost ;
  do _ <- modify (fun q => with_pb (Some (_Build q)) q) ;
  do resp <- engine client PaidQuery ;
  lift (_AccountInfoFromProtobuf (Response_AccountInfo resp)).

Definition Execute (client : option Client) : Q AccountInfo :=
  match client with
  | None => qfail errNoClientProvided
  | Some client =>
      match operator client with
      | None => qfail errNoClientProvided
      | Some op =>
          do _ <- prepareExecute client op ;
          do cost <- authorize client ;
          payAndSend client op cost
      end
  end.

(** *** Facts *)

Lemma flooredCost_max (resp : Response) :
  flooredCost resp = HbarFromTinybar (Z.max (int64 (Header_Cost resp)) 25).
Proof.
  unfold flooredCost. destruct (Z.ltb_spec (int64 (Header_Cost resp)) 25); f_equal; lia.
Qed.

Lemma flooredCost_floor (resp : Response) : 25 <= tinybar (flooredCost resp).
Proof. rewrite flooredCost_max. cbn. lia. Qed.

Lemma GetCost_probe (client : Client) (op : Operator) (st st1 : State)
    (q2 : AccountInfoQuery) (r : Result error Response) :
  operator client = Some op ->
  prepareCostQuery client op st = (st1, Ok tt) ->
  _Execute client (query st1) CostQuery = (q2, r) ->
  GetCost (Some client) st
  = (mkState q2 (sent st1 ++ [mkSentRequest CostQuery (paymentTransactions (query st1))]),
     match r with
     | Ok resp => Ok (flooredCost resp)
     | Err e => Err e
     end).
Proof.
  intros Hop Hprep Hprobe. unfold GetCost. rewrite Hop.
  unfold qbind at 1. rewrite Hprep.
  unfold qbind, engine. rewrite Hprobe. now destruct r.
Qed.

(** C2.  When [GetCost] gets as far as the cost probe and the probe succeeds,
    it returns the quote read from the response header as an [int64], or the
    floor of 25 tinybar when that quote is below it: the larger of the two.
    For a header value below 2^63 the quote is the header value itself. *)
Theorem GetCost_floor (client : Client) (op : Operator) (st st1 : State)
    (q2 : AccountInfoQuery) (resp : Response) :
  operator client = Some op ->
  prepareCostQuery client op st = (st1, Ok tt) ->
  _Execute client (query st1) CostQuery = (q2, Ok resp) ->
  snd (GetCost (Some client) st)
  = Ok (HbarFromTinybar (Z.max (int64 (Header_Cost resp)) 25))
  /\ (0 <= Header_Cost resp < 2 ^ 63 ->
      snd (GetCost (Some client) st)
      = Ok (HbarFromTinybar (Z.max (Header_Cost resp) 25))).
Proof.
  intros Hop Hprep Hprobe.
  rewrite (GetCost_probe client op st st1 q2 (Ok resp) Hop Hprep Hprobe).
  cbn [snd]. rewrite flooredCost_max. split; [reflexivity|].
  intros Hrange. now rewrite int64_small.
Qed.

(** The prelude leaves the payment settings and the engine log alone. *)
Lemma resolveAndValidate_preserves (client : Client) (st st' : State) (r : Result error unit) :
  resolveAndValidate client st = (st', r) ->
  queryPayment (query st') = queryPayment (query st)
  /\ maxQueryPayment (query st') = maxQueryPayment (query st)
  /\ sent st' = sent st.
Proof.
  unfold resolveAndValidate, qbind, get, modify, lift, check, qret.
  destruct (length (nodeAccountIDs (query st)) =? 0)%nat.
  - destruct (_GetNodeAccountIDsForExecute client) as [ids|e].
    + destruct (_ValidateNetworkOnIDs _ _); intros [= <- <-]; auto.
    + intros [= <- <-]; auto.
  - destruct (_ValidateNetworkOnIDs _ _); intros [= <- <-]; auto.
Qed.

Lemma prepareExecute_preserves (client : Client) (op : Operator) (st st' : State)
    (r : Result error unit) :
  prepareExecute client op st = (st', r) ->
  queryPayment (query st') = queryPayment (query st)
  /\ maxQueryPayment (query st') = maxQueryPayment (query st)
  /\ sent st' = sent st.
Proof.
  unfold prepareExecute, qbind, modify.
  destruct (resolveAndValidate client st) as [st1 [[]|e]] eqn:Hrv;
    apply resolveAndValidate_preserves in Hrv; intros [= <- <-]; cbn; tauto.
Qed.

(** The payment transactions a successful generation produces, as a pure
    function of the nodes. *)
Fixpoint signAll (id : TransactionID) (op : Operator) (cost : Hbar)
    (nodes : list AccountID) : Result error (list Transaction) :=
  match nodes with
  | [] => Ok []
  | nodeID :: rest =>
      match _QueryMakePaymentTransaction id nodeID op cost with
      | Err e => Err e
      | Ok transaction =>
          match signAll id op cost rest with
          | Err e => Err e
          | Ok transactions => Ok (transaction :: transactions)
          end
      end
  end.

Lemma signAll_amount (id : TransactionID) (op : Operator) (cost : Hbar)
    (nodes : list AccountID) (txs : list Transaction) :
  signAll id op cost nodes = Ok txs ->
  Forall2 (fun nodeID tx => _QueryMakePaymentTransaction id nodeID op cost = Ok tx)
    nodes txs.
Proof.
  revert txs. induction nodes as [|nodeID rest IH]; cbn; intros txs.
  - intros [= <-]. constructor.
  - destruct (_QueryMakePaymentTransaction id nodeID op cost) as [tx|e] eqn:Htx;
      [|discriminate].
    destruct (signAll id op cost rest) as [txs'|e]; [|discriminate].
    intros [= <-]. constructor; auto.
Qed.

Lemma generatePayments_ok (id : TransactionID) (op : Operator) (cost : Hbar)
    (nodes : list AccountID) (txs : list Transaction) (st : State) :
  signAll id op cost nodes = Ok txs ->
  generatePayments id op cost nodes st
  = (mkState (with_paymentTransactions (paymentTransactions (query st) ++ txs) (query st))
       (sent st),
     Ok tt).
Proof.
  revert txs st. induction nodes as [|nodeID rest IH]; cbn; intros txs st.
  - intros [= <-]. unfold qret. rewrite app_nil_r. now destruct st as [[] ?].
  - destruct (_QueryMakePaymentTransaction id nodeID op cost) as [tx|e]; [|discriminate].
    destruct (signAll id op cost rest) as [txs'|e] eqn:Hrest; [|discriminate].
    intros [= <-]. unfold qbind, lift, modify. cbn.
    rewrite (IH txs' _ eq_refl). cbn. now rewrite <- app_assoc.
Qed.

Lemma generatePayments_err (id : TransactionID) (op : Operator) (cost : Hbar)
    (nodes : list AccountID) (e : error) (st : State) :
  signAll id op cost nodes = Err e ->
  snd (generatePayments id op cost nodes st) = Err e
  /\ sent (fst (generatePayments id op cost nodes st)) = sent st.
Proof.
  revert st. induction nodes as [|nodeID rest IH]; cbn; intros st; [discriminate|].
  unfold qbind, lift, modify.
  destruct (_QueryMakePaymentTransaction id nodeID op cost) as [tx|e'].
  - destruct (signAll id op cost rest) as [txs'|e'] eqn:Hrest; [discriminate|].
    intros [= ->]. cbn.
    destruct (IH (mkState (with_paymentTransactions
                             (paymentTransactions (query st) ++ [tx]) (query st))
                    (sent st)) eq_refl) as [Herr Hsent].
    split; [exact Herr | exact Hsent].
  - intros [= ->]. now cbn.
Qed.

Lemma authorize_quote (client : Client) (st st2 : State) (quote : Hbar) :
  tinybar (queryPayment (query st)) = 0 ->
  GetCost (Some client) st = (st2, Ok quote) ->
  authorize client st
  = (st2,
     if tinybar (ceiling client (query st)) <? tinybar quote
     then Err (ErrMaxQueryPaymentExceeded quote (ceiling client (query st)) "AccountInfoQuery")
     else Ok quote).
Proof.
  intros Hpay Hcost. unfold authorize, qbind, get. rewrite Hpay. cbn [Z.eqb negb].
  rewrite Hcost.
  now destruct (tinybar (ceiling client (query st)) <? tinybar quote).
Qed.

Lemma payAndSend_sent (client : Client) (op : Operator) (cost : Hbar) (st : State)
    (txs : list Transaction) :
  signAll (paymentTransactionID (query st)) op cost (nodeAccountIDs (query st)) = Ok txs ->
  sent (fst (payAndSend client op cost st))
  = (sent st ++ [mkSentRequest PaidQuery txs])%list.
Proof.
  intros Hsign. unfold payAndSend, _QueryGeneratePayments, qbind, modify, get. cbn.
  rewrite (generatePayments_ok _ _ _ _ txs _ Hsign). cbn.
  unfold engine. cbn.
  destruct (_Execute client _ PaidQuery) as [q' [resp|e]]; reflexivity.
Qed.

Lemma payAndSend_unsigned (client : Client) (op : Operator) (cost : Hbar) (st : State)
    (e : error) :
  signAll (paymentTransactionID (query st)) op cost (nodeAccountIDs (query st)) = Err e ->
  snd (payAndSend client op cost st) = Err e
  /\ sent (fst (payAndSend client op cost st)) = sent st.
Proof.
  intros Hsign. unfold payAndSend, _QueryGeneratePayments, qbind, modify, get. cbn.
  destruct (generatePayments_err _ _ _ _ e
              (mkState (with_paymentTransactions []
                          (with_nextPaymentTransactionIndex 0 (query st))) (sent st))
              Hsign) as [Herr Hsent].
  cbn in Herr, Hsent.
  destruct (generatePayments _ _ _ _ _) as [st' [[]|e']]; cbn in Herr, Hsent;
    [discriminate|].
  cbn. split; [congruence | exact Hsent].
Qed.

(** C1.  A query executed without an explicit payment ([queryPayment] zero)
    obtains the quote from [GetCost] and compares it with the ceiling (the
    query's maximum payment, or the client's when the query has none).  A
    quote above the ceiling makes [Execute] return the max-payment error that
    carries the quote and the ceiling, in the state [GetCost] left: no
    payment is generated and no paid request reaches the engine.  Otherwise
    [Execute] goes on to pay with the quote as the amount: every payment
    transaction generated (one per node) is made for the quote, and these are
    the payments the paid request is sent with; if a payment cannot be made,
    that error is returned and nothing is sent. *)
Theorem Execute_payment_ceiling (client : Client) (op : Operator) (st st1 st2 : State)
    (quote : Hbar) :
  operator client = Some op ->
  tinybar (queryPayment (query st)) = 0 ->
  prepareExecute client op st = (st1, Ok tt) ->
  GetCost (Some client) st1 = (st2, Ok quote) ->
  (tinybar (ceiling client (query st)) < tinybar quote ->
   Execute (Some client) st
   = (st2, Err (ErrMaxQueryPaymentExceeded quote (ceiling client (query st))
                  "AccountInfoQuery")))
  /\ (tinybar quote <= tinybar (ceiling client (query st)) ->
      Execute (Some client) st = payAndSend client op quote st2
      /\ (forall txs,
             signAll (paymentTransactionID (query st2)) op quote (nodeAccountIDs (query st2))
             = Ok txs ->
             Forall2 (fun nodeID tx =>
                        _QueryMakePaymentTransaction (paymentTransactionID (query st2))
                          nodeID op quote = Ok tx)
               (nodeAccountIDs (query st2)) txs
             /\ sent (fst (Execute (Some client) st))
                = (sent st2 ++ [mkSentRequest PaidQuery txs])%list)
      /\ (forall e,
             signAll (paymentTransactionID (query st2)) op quote (nodeAccountIDs (query st2))
             = Err e ->
             snd (Execute (Some client) st) = Err e
             /\ sent (fst (Execute (Some client) st)) = sent st2)).
Proof.
  intros Hop Hpay Hprep Hcost.
  destruct (prepareExecute_preserves client op st st1 (Ok tt) Hprep) as (Hqp & Hmax & _).
  assert (Hceil : ceiling client (query st1) = ceiling client (query st))
    by (unfold ceiling; now rewrite Hmax).
  assert (Hexec : Execute (Some client) st
                  = match authorize client st1 with
                    | (st', Ok cost) => payAndSend client op cost st'
                    | (st', Err e) => (st', Err e)
                    end).
  { unfold Execute. rewrite Hop. unfold qbind at 1. rewrite Hprep. reflexivity. }
  rewrite Hexec, (authorize_quote client st1 st2 quote) by congruence.
  rewrite Hceil. split; intros Hcmp.
  - apply Z.ltb_lt in Hcmp. now rewrite Hcmp.
  - apply Z.ltb_ge in Hcmp. rewrite Hcmp. split; [reflexivity|]. split.
    + intros txs Hsign. split; [now apply signAll_amount | now apply payAndSend_sent].
    + intros e Hsign. now apply payAndSend_unsigned.
Qed.

(** *** Backoff configuration *)

(** The configured bounds are usable by the retry loop: the minimum is not
    negative and does not exceed the maximum. *)
Definition backoff_ok (q : AccountInfoQuery) : Prop :=
  0 <= GetMinBackoff q <= GetMaxBackoff q.

(** The retry configuration a call takes from the query. *)
Definition engineConfig (q : AccountInfoQuery) (maxRetry : nat) : Engine.Config :=
  Engine.mkConfig (GetMinBackoff q) (GetMaxBackoff q) maxRetry.

Lemma SetMaxBackoff_Returned (max : Duration) (q q' : AccountInfoQuery) :
  SetMaxBackoff max q = Returned q' ->
  exists min, minBackoff q = Some min /\ 0 <= max /\ min <= max
              /\ q' = with_maxBackoff (Some max) q.
Proof.
  unfold SetMaxBackoff. destruct (Z.ltb_spec max 0); [discriminate|].
  destruct (minBackoff q) as [min|]; cbn; [|discriminate].
  destruct (Z.ltb_spec max min); [discriminate|].
  intros [= <-]. exists min. auto.
Qed.

Lemma SetMinBackoff_Returned (min : Duration) (q q' : AccountInfoQuery) :
  SetMinBackoff min q = Returned q' ->
  exists max, maxBackoff q = Some max /\ 0 <= min /\ min <= max
              /\ q' = with_minBackoff (Some min) q.
Proof.
  unfold SetMinBackoff. destruct (Z.ltb_spec min 0); [discriminate|].
  destruct (maxBackoff q) as [max|]; cbn; [|discriminate].
  destruct (Z.ltb_spec max min); [discriminate|].
  intros [= <-]. exists max. auto.
Qed.

(** A query on which neither bound was set has the default bounds. *)
Lemma backoff_ok_defaults (q : AccountInfoQuery) :
  minBackoff q = None -> maxBackoff q = None -> backoff_ok q.
Proof.
  intros Hmin Hmax. unfold backoff_ok, GetMinBackoff, GetMaxBackoff.
  rewrite Hmin, Hmax. unfold Millisecond, Second. lia.
Qed.

(** C3.  For a query whose configured backoff bounds are usable, a setter
    that returns leaves them usable, with the minimum at most the maximum;
    and in every call of the retry loop configured from the query, for any
    candidate nodes, retry limit and sequence of responses, every backoff
    slept lies between the configured minimum and maximum and every
    consecutive pair of backoffs is non-decreasing within those bounds. *)
Theorem backoff_invariants (q : AccountInfoQuery) :
  backoff_ok q ->
  (forall max q', SetMaxBackoff max q = Returned q' ->
                  backoff_ok q' /\ GetMinBackoff q' <= GetMaxBackoff q')
  /\ (forall min q', SetMinBackoff min q = Returned q' ->
                     backoff_ok q' /\ GetMinBackoff q' <= GetMaxBackoff q')
  /\ (forall (maxRetry : nat) (nodes : list AccountID)
             (responses : list Engine.Classification),
         Forall (fun d => GetMinBackoff q <= d <= GetMaxBackoff q)
           (Engine.backoffs (fst (Engine.call (engineConfig q maxRetry) nodes responses)))
         /\ Engine.consecutive_bounded (GetMinBackoff q) (GetMaxBackoff q)
              (Engine.backoffs (fst (Engine.call (engineConfig q maxRetry) nodes responses)))).
Proof.
  intros Hok. split; [|split].
  - intros max q' Hset.
    destruct (SetMaxBackoff_Returned max q q' Hset) as (min & Hmin & Hmax & Hle & ->).
    unfold backoff_ok, GetMinBackoff, GetMaxBackoff in *. cbn.
    rewrite Hmin in *. lia.
  - intros min q' Hset.
    destruct (SetMinBackoff_Returned min q q' Hset) as (max & Hmax & Hmin & Hle & ->).
    unfold backoff_ok, GetMinBackoff, GetMaxBackoff in *. cbn.
    rewrite Hmax in *. lia.
  - intros maxRetry nodes responses.
    destruct (Engine.run_backoffs (engineConfig q maxRetry) responses Hok
                (Engine.Ready (engineConfig q maxRetry) nodes)) as [Hall Hsorted].
    { cbn. unfold backoff_ok in Hok. lia. }
    cbn in Hall. unfold Engine.call.
    split; [exact Hall|]. now apply Engine.Sorted_consecutive.
Qed.

(** C10.  On a query whose [maxBackoff] pointer is nil, [SetMinBackoff] with
    a non-negative argument faults on the nil pointer in its comparison, and
    no argument at all makes it return: a minimum can only be set once a
    maximum is. *)
Theorem SetMinBackoff_needs_maxBackoff (min : Duration) (q : AccountInfoQuery) :
  maxBackoff q = None ->
  0 <= min ->
  SetMinBackoff min q = Panicked NilDereference
  /\ (forall min' q', SetMinBackoff min' q <> Returned q').
Proof.
  intros Hnil Hmin. split.
  - unfold SetMinBackoff. destruct (Z.ltb_spec min 0); [lia|]. now rewrite Hnil.
  - intros min' q' Hset.
    destruct (SetMinBackoff_Returned min' q q' Hset) as (max & Hmax & _). congruence.
Qed.

(** *** More on the prelude, the probe and the payments *)

Lemma resolveAndValidate_cases (client : Client) (st : State) :
  resolveAndValidate client st
  = if (length (nodeAccountIDs (query st)) =? 0)%nat
    then
      match _GetNodeAccountIDsForExecute client with
      | Err e => (st, Err e)
      | Ok ids =>
          (mkState (SetNodeAccountIDs ids (query st)) (sent st),
           match _ValidateNetworkOnIDs (Some client) (SetNodeAccountIDs ids (query st)) with
           | Some e => Err e
           | None => Ok tt
           end)
      end
    else
      (st,
       match _ValidateNetworkOnIDs (Some client) (query st) with
       | Some e => Err e
       | None => Ok tt
       end).
Proof.
  unfold resolveAndValidate, qbind, get, modify, lift, check, qret.
  destruct (length (nodeAccountIDs (query st)) =? 0)%nat.
  - destruct (_GetNodeAccountIDsForExecute client) as [ids|e]; [|reflexivity].
    cbn [query]. now destruct (_ValidateNetworkOnIDs _ _).
  - now destruct (_ValidateNetworkOnIDs _ _).
Qed.

(** X19.  Node account ids set on the query are never replaced: the
    client's network is asked for nodes only when the query has none, and
    then its answer becomes the query's nodes; if the network cannot name
    nodes the prelude fails with its error and the query is left as it
    was.  Nothing else of the query changes, and nothing is sent. *)
Theorem node_selection (client : Client) (st st' : State) (r : Result error unit) :
  resolveAndValidate client st = (st', r) ->
  sent st' = sent st
  /\ (nodeAccountIDs (query st) <> [] -> st' = st)
  /\ (nodeAccountIDs (query st) = [] ->
      match _GetNodeAccountIDsForExecute client with
      | Ok ids => query st' = with_nodeAccountIDs ids (query st)
      | Err e => st' = st /\ r = Err e
      end).
Proof.
  rewrite resolveAndValidate_cases.
  destruct (nodeAccountIDs (query st)) as [|n ns] eqn:Hnodes; cbn [length Nat.eqb].
  - destruct (_GetNodeAccountIDsForExecute client) as [ids|e]; intros [= <- <-];
      (split; [reflexivity|]); (split; [congruence|]); intros _; auto.
  - intros [= <- <-]. split; [reflexivity|]. split; [reflexivity|]. discriminate.
Qed.

Lemma costPayments_spec (op : Operator) (nodes : list AccountID) (st st' : State)
    (r : Result error unit) :
  costPayments op nodes st = (st', r) ->
  sent st' = sent st
  /\ nodeAccountIDs (query st') = nodeAccountIDs (query st)
  /\ (r = Ok tt ->
      exists txs,
        paymentTransactions (query st') = (paymentTransactions (query st) ++ txs)%list
        /\ length txs = length nodes
        /\ Forall (fun tx =>
                     _QueryMakePaymentTransaction zeroTransactionID (mkAccountID 0 0 0) op
                       (HbarFromTinybar 0) = Ok tx) txs).
Proof.
  revert st. induction nodes as [|n nodes IH]; intros st; cbn [costPayments].
  - unfold qret. intros [= <- <-]. repeat split.
    intros _. exists []. rewrite app_nil_r. repeat split. constructor.
  - unfold qbind, lift, modify.
    destruct (_QueryMakePaymentTransaction zeroTransactionID (mkAccountID 0 0 0) op
                (HbarFromTinybar 0)) as [tx|e] eqn:Htx.
    + intros Hrest. apply IH in Hrest. cbn in Hrest.
      destruct Hrest as (Hsent & Hnodes & Hok). repeat split; [exact Hsent | exact Hnodes |].
      intros Hr. destruct (Hok Hr) as (txs & Hpay & Hlen & Hall).
      exists (tx :: txs). rewrite Hpay, <- app_assoc. repeat split.
      * cbn. now rewrite Hlen.
      * now constructor.
    + intros [= <- <-]. repeat split. discriminate.
Qed.

(** X20.  The cost probe never pays: when [GetCost] gets as far as the
    probe, the payment transactions it sends along are those the query
    already held followed by one per node, each made for zero tinybar with
    the empty transaction id and the zero account.  [GetCost] does not clear
    them, so they stay in the query afterwards. *)
Theorem probe_payments_are_empty (client : Client) (op : Operator) (st st1 : State) :
  prepareCostQuery client op st = (st1, Ok tt) ->
  sent st1 = sent st
  /\ exists txs,
      paymentTransactions (query st1) = (paymentTransactions (query st) ++ txs)%list
      /\ length txs = length (nodeAccountIDs (query st1))
      /\ Forall (fun tx =>
                   _QueryMakePaymentTransaction zeroTransactionID (mkAccountID 0 0 0) op
                     (HbarFromTinybar 0) = Ok tx) txs.
Proof.
  unfold prepareCostQuery, qbind, get, modify.
  destruct (resolveAndValidate client st) as [sta [[]|e]] eqn:Hrv; [|discriminate].
  destruct (costPayments op (nodeAccountIDs (query sta)) sta) as [stb [[]|e]] eqn:Hcp;
    [|discriminate].
  intros [= <-]. cbn [query sent].
  destruct (costPayments_spec _ _ _ _ _ Hcp) as (Hsent & Hnodes & Hok).
  destruct (Hok eq_refl) as (txs & Hpay & Hlen & Hall).
  assert (Hrv' := Hrv). apply resolveAndValidate_preserves in Hrv' as (_ & _ & Hsent0).
  split; [congruence|].
  exists txs. repeat split; [|cbn; congruence | exact Hall].
  cbn. rewrite Hpay. f_equal.
  rewrite resolveAndValidate_cases in Hrv.
  destruct (length (nodeAccountIDs (query st)) =? 0)%nat.
  - destruct (_GetNodeAccountIDsForExecute client); injection Hrv as <- _; reflexivity.
  - injection Hrv as <- _. reflexivity.
Qed.

Lemma prepareCostQuery_sent (client : Client) (op : Operator) (st st1 : State)
    (r : Result error unit) :
  prepareCostQuery client op st = (st1, r) -> sent st1 = sent st.
Proof.
  unfold prepareCostQuery, qbind, get, modify.
  destruct (resolveAndValidate client st) as [sta [[]|e]] eqn:Hrv;
    apply resolveAndValidate_preserves in Hrv as (_ & _ & Hsent0).
  - destruct (costPayments op (nodeAccountIDs (query sta)) sta) as [stb [[]|e]] eqn:Hcp;
      apply costPayments_spec in Hcp as (Hsent & _); intros [= <- _]; cbn; congruence.
  - intros [= <- _]. exact Hsent0.
Qed.

(** What [GetCost] sends, whatever its outcome: nothing, or the probe; and a
    quote it returns is at least the floor. *)
Lemma GetCost_sent (client : Client) (op : Operator) (st st' : State)
    (r : Result error Hbar) :
  operator client = Some op ->
  GetCost (Some client) st = (st', r) ->
  (exists probes, sent st' = (sent st ++ probes)%list
                  /\ Forall (fun req => sent_kind req = CostQuery) probes)
  /\ (forall quote, r = Ok quote -> 25 <= tinybar quote).
Proof.
  intros Hop. unfold GetCost. rewrite Hop. unfold qbind at 1.
  destruct (prepareCostQuery client op st) as [st1 [[]|e]] eqn:Hprep.
  - apply prepareCostQuery_sent in Hprep.
    unfold qbind, engine, qret.
    destruct (_Execute client (query st1) CostQuery) as [q2 [resp|e]];
      intros [= <- <-]; cbn [sent]; rewrite Hprep.
    + split; [eexists; split; [reflexivity | repeat constructor]|].
      intros quote [= <-]. apply flooredCost_floor.
    + split; [eexists; split; [reflexivity | repeat constructor]|]. discriminate.
  - apply prepareCostQuery_sent in Hprep. intros [= <- <-].
    split; [exists []; rewrite app_nil_r; split; [congruence | constructor]|]. discriminate.
Qed.

(** A payment transaction made by the operator for an amount between two
    bounds. *)
Definition made_for (op : Operator) (lo hi : Z) (tx : Transaction) : Prop :=
  exists id nodeID amount,
    _QueryMakePaymentTransaction id nodeID op amount = Ok tx
    /\ lo <= tinybar amount <= hi.

Lemma payAndSend_outcome (client : Client) (op : Operator) (cost : Hbar) (st : State) :
  sent (fst (payAndSend client op cost st)) = sent st
  \/ exists txs,
      sent (fst (payAndSend client op cost st)) = (sent st ++ [mkSentRequest PaidQuery txs])%list
      /\ Forall (made_for op (tinybar cost) (tinybar cost)) txs.
Proof.
  destruct (signAll (paymentTransactionID (query st)) op cost (nodeAccountIDs (query st)))
    as [txs|e] eqn:Hsign.
  - right. exists txs. split; [now apply payAndSend_sent|].
    apply signAll_amount in Hsign.
    induction Hsign as [|nodeID tx nodes txs Htx _ IH]; constructor; [|exact IH].
    exists (paymentTransactionID (query st)), nodeID, cost. split; [exact Htx | lia].
  - left. now apply (payAndSend_unsigned client op cost st e).
Qed.

(** X21.  Without an explicit payment, [Execute] never sends a paid request
    above the ceiling, whatever the nodes, the signer and the engine do:
    everything it hands to the engine is either a cost probe or a paid
    request whose payment transactions were all made for one amount that is
    at least the floor of 25 tinybar and at most the ceiling. *)
Theorem Execute_never_overpays (client : Client) (op : Operator) (st : State) :
  operator client = Some op ->
  tinybar (queryPayment (query st)) = 0 ->
  exists new,
    sent (fst (Execute (Some client) st)) = (sent st ++ new)%list
    /\ Forall (fun req =>
                 sent_kind req = CostQuery
                 \/ Forall (made_for op 25 (tinybar (ceiling client (query st))))
                      (sent_payments req))
         new.
Proof.
  intros Hop Hpay. unfold Execute. rewrite Hop. unfold qbind at 1.
  destruct (prepareExecute client op st) as [st1 [[]|e]] eqn:Hprep.
  2:{ apply prepareExecute_preserves in Hprep as (_ & _ & Hsent).
      exists []. rewrite app_nil_r. split; [exact Hsent | constructor]. }
  destruct (prepareExecute_preserves client op st st1 (Ok tt) Hprep) as (Hqp & Hmax & Hsent1).
  assert (Hceil : ceiling client (query st1) = ceiling client (query st))
    by (unfold ceiling; now rewrite Hmax).
  unfold qbind at 1. unfold authorize, qbind at 1, get.
  rewrite Hqp, Hpay. cbn [Z.eqb negb]. unfold qbind at 1.
  destruct (GetCost (Some client) st1) as [st2 [quote|e]] eqn:Hcost.
  2:{ destruct (GetCost_sent client op st1 st2 (Err e) Hop Hcost)
        as ((probes & Hsent2 & Hprobes) & _).
      exists probes. cbn [fst]. rewrite Hsent2, Hsent1. split; [reflexivity|].
      eapply Forall_impl; [exact Hprobes|]. cbn. auto. }
  destruct (GetCost_sent client op st1 st2 (Ok quote) Hop Hcost)
    as ((probes & Hsent2 & Hprobes) & Hfloor).
  specialize (Hfloor quote eq_refl). rewrite Hceil.
  destruct (Z.ltb_spec (tinybar (ceiling client (query st))) (tinybar quote)) as [Hgt|Hle].
  { exists probes. cbn [fst qfail]. rewrite Hsent2, Hsent1. split; [reflexivity|].
    eapply Forall_impl; [exact Hprobes|]. cbn. auto. }
  cbn [qret].
  destruct (payAndSend_outcome client op quote st2) as [Hsame | (txs & Hpaid & Hall)].
  - exists probes. rewrite Hsame, Hsent2, Hsent1. split; [reflexivity|].
    eapply Forall_impl; [exact Hprobes|]. cbn. auto.
  - exists (probes ++ [mkSentRequest PaidQuery txs])%list.
    rewrite Hpaid, Hsent2, Hsent1, app_assoc. split; [reflexivity|].
    apply Forall_app. split.
    + eapply Forall_impl; [exact Hprobes|]. cbn. auto.
    + constructor; [|constructor]. right. cbn [sent_payments].
      eapply Forall_impl; [exact Hall|].
      intros tx (id & nodeID & amount & Htx & Hamount).
      exists id, nodeID, amount. split; [exact Htx | lia].
Qed.

(** X22.  An explicit payment is taken as it is: no cost probe is sent and
    the ceiling is not consulted, so [Execute] pays the amount set with
    [SetQueryPayment] even when it is above the maximum query payment. *)
Theorem explicit_payment_bypasses_ceiling (client : Client) (op : Operator)
    (st st1 : State) :
  operator client = Some op ->
  tinybar (queryPayment (query st)) <> 0 ->
  prepareExecute client op st = (st1, Ok tt) ->
  Execute (Some client) st = payAndSend client op (queryPayment (query st)) st1
  /\ (forall txs,
         signAll (paymentTransactionID (query st1)) op (queryPayment (query st))
           (nodeAccountIDs (query st1)) = Ok txs ->
         sent (fst (Execute (Some client) st)) = (sent st ++ [mkSentRequest PaidQuery txs])%list
         /\ Forall2 (fun nodeID tx =>
                       _QueryMakePaymentTransaction (paymentTransactionID (query st1))
                         nodeID op (queryPayment (query st)) = Ok tx)
              (nodeAccountIDs (query st1)) txs).
Proof.
  intros Hop Hpay Hprep.
  destruct (prepareExecute_preserves client op st st1 (Ok tt) Hprep) as (Hqp & _ & Hsent1).
  assert (Hexec : Execute (Some client) st
                  = payAndSend client op (queryPayment (query st)) st1).
  { unfold Execute. rewrite Hop. unfold qbind at 1. rewrite Hprep.
    unfold qbind at 1. unfold authorize, qbind at 1, get. rewrite Hqp.
    destruct (Z.eqb_spec (tinybar (queryPayment (query st))) 0); [contradiction|].
    reflexivity. }
  split; [exact Hexec|].
  intros txs Hsign. rewrite Hexec. split.
  - rewrite (payAndSend_sent client op _ st1 txs Hsign). now rewrite Hsent1.
  - now apply signAll_amount.
Qed.

(** X23.  [SetMaxBackoff] compares with the minimum through its pointer:
    on a query whose [minBackoff] is nil it faults for every non-negative
    argument and never returns.  A query on which neither bound was ever set
    can therefore not be given one by either setter. *)
Theorem SetMaxBackoff_needs_minBackoff (max : Duration) (q : AccountInfoQuery) :
  minBackoff q = None ->
  0 <= max ->
  SetMaxBackoff max q = Panicked NilDereference
  /\ (forall max' q', SetMaxBackoff max' q <> Returned q')
  /\ (maxBackoff q = None ->
      forall d q', SetMinBackoff d q <> Returned q' /\ SetMaxBackoff d q <> Returned q').
Proof.
  intros Hnil Hmax.
  assert (Hnever : forall max' q', SetMaxBackoff max' q <> Returned q').
  { intros max' q' Hset.
    destruct (SetMaxBackoff_Returned max' q q' Hset) as (min & Hmin & _). congruence. }
  split; [|split; [exact Hnever|]].
  - unfold SetMaxBackoff. destruct (Z.ltb_spec max 0); [lia|]. now rewrite Hnil.
  - intros Hnil' d q'. split; [|apply Hnever].
    intros Hset. destruct (SetMinBackoff_Returned d q q' Hset) as (m & Hm & _). congruence.
Qed.

(** X24.  The setters succeed exactly when the other bound is set and the
    new value is non-negative and on the right side of it; they then change
    that one bound only, and the getter returns the value just set. *)
Theorem backoff_setters_roundtrip (d : Duration) (q q' : AccountInfoQuery) :
  (SetMaxBackoff d q = Returned q'
   <-> (exists min, minBackoff q = Some min /\ min <= d) /\ 0 <= d
       /\ q' = with_maxBackoff (Some d) q)
  /\ (SetMinBackoff d q = Returned q'
      <-> (exists max, maxBackoff q = Some max /\ d <= max) /\ 0 <= d
          /\ q' = with_minBackoff (Some d) q)
  /\ (SetMaxBackoff d q = Returned q' ->
      GetMaxBackoff q' = d /\ GetMinBackoff q' = GetMinBackoff q)
  /\ (SetMinBackoff d q = Returned q' ->
      GetMinBackoff q' = d /\ GetMaxBackoff q' = GetMaxBackoff q).
Proof.
  split; [|split; [|split]].
  - split.
    + intros Hset. destruct (SetMaxBackoff_Returned d q q' Hset) as (min & ? & ? & ? & ?).
      eauto 6.
    + intros ((min & Hmin & Hle) & Hd & ->). unfold SetMaxBackoff.
      destruct (Z.ltb_spec d 0); [lia|]. rewrite Hmin. cbn.
      destruct (Z.ltb_spec d min); [lia|]. reflexivity.
  - split.
    + intros Hset. destruct (SetMinBackoff_Returned d q q' Hset) as (max & ? & ? & ? & ?).
      eauto 6.
    + intros ((max & Hmax & Hle) & Hd & ->). unfold SetMinBackoff.
      destruct (Z.ltb_spec d 0); [lia|]. rewrite Hmax. cbn.
      destruct (Z.ltb_spec max d); [lia|]. reflexivity.
  - intros Hset. destruct (SetMaxBackoff_Returned d q q' Hset) as (min & _ & _ & _ & ->).
    split; reflexivity.
  - intros Hset. destruct (SetMinBackoff_Returned d q q' Hset) as (max & _ & _ & _ & ->).
    split; reflexivity.
Qed.

End AccountInfoQuery.

Arguments mkAccountInfoQuery {Transaction TransactionID}.
Arguments mkState {Transaction TransactionID}.
Arguments mkSentRequest {Transaction}.

(** *** A scripted run

    A payment transaction is reduced to the node it is addressed to and its
    amount, a transaction id to a number, a response to its header cost.  The
    network has one node, 0.0.3; signing never fails; every request is
    answered with the same quote. *)

Definition scripted_node : AccountID := mkAccountID 0 0 3.

Definition scripted_operator : Operator := mkOperator (mkAccountID 0 0 2).

Definition scripted_client (maxQueryPayment : Z) : Client :=
  {| operator := Some scripted_operator;
     client_maxQueryPayment := HbarFromTinybar maxQueryPayment;
     autoValidateChecksums := false;
     GetMirrorNetwork := [] |}.

(** A query for account 0.0.5 with nothing else set. *)
Definition fresh_query : AccountInfoQuery (AccountID * Z) Z :=
  mkAccountInfoQuery [] [] 0 0 (HbarFromTinybar 0) (HbarFromTinybar 0)
    None None None (Some (mkAccountID 0 0 5)).

(** The same query with both backoff bounds at their default values. *)
Definition configured_query : AccountInfoQuery (AccountID * Z) Z :=
  mkAccountInfoQuery [] [] 0 0 (HbarFromTinybar 0) (HbarFromTinybar 0)
    (Some (8 * Second)) (Some (250 * Millisecond)) None (Some (mkAccountID 0 0 5)).

Definition scripted_account_GetCost (nodeQuote : Z) (client : option Client)
  : Q (AccountID * Z) Z Hbar :=
  GetCost (AccountID * Z) Z Z 0
    (fun _ => Ok [scripted_node]) (fun _ _ => None)
    (fun _ nodeID _ cost => Ok (nodeID, tinybar cost))
    (fun _ q _ => (q, Ok nodeQuote)) (fun resp => resp) client.

Definition scripted_account_Execute (nodeQuote : Z) (client : option Client)
  : Q (AccountID * Z) Z unit :=
  Execute (AccountID * Z) Z Z unit unit 0
    (fun _ => Ok [scripted_node]) (fun _ _ => None) (fun _ => 1)
    (fun _ nodeID _ cost => Ok (nodeID, tinybar cost))
    (fun _ q _ => (q, Ok nodeQuote)) (fun resp => resp)
    (fun _ => tt) (fun _ => Ok tt) client.

Lemma GetCost_floor_witness :
  snd (scripted_account_GetCost 7 (Some (scripted_client 100)) (mkState fresh_query []))
  = Ok (HbarFromTinybar 25)
  /\ snd (scripted_account_GetCost 30 (Some (scripted_client 100)) (mkState fresh_query []))
     = Ok (HbarFromTinybar 30).
Proof.
  split.
  - exact (proj1 (GetCost_floor (AccountID * Z) Z Z 0
                    (fun _ => Ok [scripted_node]) (fun _ _ => None)
                    (fun _ nodeID _ cost => Ok (nodeID, tinybar cost))
                    (fun _ q _ => (q, Ok 7)) (fun resp => resp)
                    (scripted_client 100) scripted_operator (mkState fresh_query [])
                    _ _ 7 eq_refl eq_refl eq_refl)).
  - exact (proj1 (GetCost_floor (AccountID * Z) Z Z 0
                    (fun _ => Ok [scripted_node]) (fun _ _ => None)
                    (fun _ nodeID _ cost => Ok (nodeID, tinybar cost))
                    (fun _ q _ => (q, Ok 30)) (fun resp => resp)
                    (scripted_client 100) scripted_operator (mkState fresh_query [])
                    _ _ 30 eq_refl eq_refl eq_refl)).
Defined.

(** A header cost of 2^63 is [-2^63] as an [int64], below the floor. *)
Example GetCost_wrapped_quote :
  snd (scripted_account_GetCost (2 ^ 63) (Some (scripted_client 100)) (mkState fresh_query []))
  = Ok (HbarFromTinybar 25).
Proof. reflexivity. Qed.

Lemma Execute_payment_ceiling_witness :
  snd (scripted_account_Execute 30 (Some (scripted_client 20)) (mkState fresh_query []))
  = Err (ErrMaxQueryPaymentExceeded (HbarFromTinybar 30) (HbarFromTinybar 20)
           "AccountInfoQuery")
  /\ sent (AccountID * Z) Z
       (fst (scripted_account_Execute 30 (Some (scripted_client 100)) (mkState fresh_query [])))
     = [mkSentRequest CostQuery [(mkAccountID 0 0 0, 0)];
        mkSentRequest PaidQuery [(scripted_node, 30)]].
Proof.
  split.
  - refine (f_equal snd
              (proj1 (Execute_payment_ceiling (AccountID * Z) Z Z unit unit 0
                        (fun _ => Ok [scripted_node]) (fun _ _ => None) (fun _ => 1)
                        (fun _ nodeID _ cost => Ok (nodeID, tinybar cost))
                        (fun _ q _ => (q, Ok 30)) (fun resp => resp)
                        (fun _ => tt) (fun _ => Ok tt)
                        (scripted_client 20) scripted_operator (mkState fresh_query [])
                        _ _ (HbarFromTinybar 30) eq_refl eq_refl eq_refl eq_refl) _)).
    cbn. lia.
  - refine (proj2
              (proj1 (proj2
                        (proj2 (Execute_payment_ceiling (AccountID * Z) Z Z unit unit 0
                                  (fun _ => Ok [scripted_node]) (fun _ _ => None) (fun _ => 1)
                                  (fun _ nodeID _ cost => Ok (nodeID, tinybar cost))
                                  (fun _ q _ => (q, Ok 30)) (fun resp => resp)
                                  (fun _ => tt) (fun _ => Ok tt)
                                  (scripted_client 100) scripted_operator
                                  (mkState fresh_query [])
                                  _ _ (HbarFromTinybar 30) eq_refl eq_refl eq_refl eq_refl) _))
                 [(scripted_node, 30)] eq_refl)).
    cbn. lia.
Defined.

(** A node quote below the floor: the amount compared and paid is the floor. *)
Example Execute_pays_floored_quote :
  sent (AccountID * Z) Z
    (fst (scripted_account_Execute 7 (Some (scripted_client 100)) (mkState fresh_query [])))
  = [mkSentRequest CostQuery [(mkAccountID 0 0 0, 0)];
     mkSentRequest PaidQuery [(scripted_node, 25)]].
Proof. reflexivity. Qed.

Lemma backoff_invariants_witness :
  backoff_ok _ _ configured_query
  /\ Engine.consecutive_bounded (250 * Millisecond) (8 * Second)
       (Engine.backoffs
          (fst (Engine.call (engineConfig _ _ configured_query 10) [scripted_node]
                  [Engine.Transient; Engine.NodeSpecificRetry; Engine.Transient;
                   Engine.Transient; Engine.Accepted]))).
Proof.
  assert (Hok : backoff_ok _ _ configured_query) by (unfold backoff_ok; cbn; unfold Millisecond, Second; lia).
  split; [exact Hok|].
  exact (proj2 (proj2 (proj2 (backoff_invariants _ _ configured_query Hok))
                  10%nat [scripted_node]
                  [Engine.Transient; Engine.NodeSpecificRetry; Engine.Transient;
                   Engine.Transient; Engine.Accepted])).
Defined.

Example backoffs_of_a_call :
  Engine.backoffs
    (fst (Engine.call (engineConfig _ _ configured_query 10) [scripted_node]
            [Engine.Transient; Engine.NodeSpecificRetry; Engine.Transient;
             Engine.Transient; Engine.Transient; Engine.Transient;
             Engine.Transient; Engine.Accepted]))
  = [500 * Millisecond; 1 * Second; 2 * Second; 4 * Second; 8 * Second; 8 * Second].
Proof. reflexivity. Qed.

Lemma SetMinBackoff_needs_maxBackoff_witness :
  SetMinBackoff _ _ (250 * Millisecond) fresh_query = Panicked NilDereference
  /\ (forall min' q', SetMinBackoff _ _ min' fresh_query <> Returned q').
Proof.
  apply (SetMinBackoff_needs_maxBackoff _ _ (250 * Millisecond) fresh_query).
  - reflexivity.
  - unfold Millisecond. lia.
Defined.

(** The setters on a query whose bounds are both set. *)
Example setters_on_configured_query :
  SetMinBackoff _ _ (1 * Second) configured_query
  = Returned (with_minBackoff _ _ (Some (1 * Second)) configured_query)
  /\ SetMaxBackoff _ _ (100 * Millisecond) configured_query
     = Panicked (PanicMsg "maxBackoff must be greater than or equal to minBackoff")
  /\ SetMaxBackoff _ _ (1 * Second) fresh_query = Panicked NilDereference.
Proof. repeat split. Qed.

Definition scripted_sign (id : Z) (nodeID : AccountID) (op : Operator) (cost : Hbar)
  : Result error (AccountID * Z) :=
  Ok (nodeID, tinybar cost).

(** A query that sets its own payment, above the client's maximum. *)
Definition prepaid_query : AccountInfoQuery (AccountID * Z) Z :=
  mkAccountInfoQuery [] [] 0 0 (HbarFromTinybar 500) (HbarFromTinybar 0)
    None None None (Some (mkAccountID 0 0 5)).

Lemma node_selection_witness :
  query _ _
    (fst (resolveAndValidate (AccountID * Z) Z (fun _ => Ok [scripted_node])
            (fun _ _ => None) (scripted_client 100) (mkState fresh_query [])))
  = with_nodeAccountIDs _ _ [scripted_node] fresh_query.
Proof.
  exact (proj2 (proj2 (node_selection (AccountID * Z) Z (fun _ => Ok [scripted_node])
                         (fun _ _ => None) (scripted_client 100)
                         (mkState fresh_query []) _ _ eq_refl)) eq_refl).
Defined.

Lemma probe_payments_are_empty_witness :
  exists txs,
    paymentTransactions _ _
      (query _ _
         (fst (prepareCostQuery (AccountID * Z) Z 0 (fun _ => Ok [scripted_node])
                 (fun _ _ => None) scripted_sign (scripted_client 100) scripted_operator
                 (mkState fresh_query []))))
    = txs
    /\ length txs = 1%nat
    /\ Forall (fun tx => tx = (mkAccountID 0 0 0, 0)) txs.
Proof.
  destruct (probe_payments_are_empty (AccountID * Z) Z 0 (fun _ => Ok [scripted_node])
              (fun _ _ => None) scripted_sign (scripted_client 100) scripted_operator
              (mkState fresh_query []) _ eq_refl) as (_ & txs & Hpay & Hlen & Hall).
  exists txs. split; [exact Hpay|]. split; [exact Hlen|].
  eapply Forall_impl; [exact Hall|]. intros tx Htx. now injection Htx.
Defined.

Lemma Execute_never_overpays_witness :
  exists new,
    sent (AccountID * Z) Z
      (fst (scripted_account_Execute 30 (Some (scripted_client 100)) (mkState fresh_query [])))
    = new
    /\ length new = 2%nat.
Proof.
  destruct (Execute_never_overpays (AccountID * Z) Z Z unit unit 0
              (fun _ => Ok [scripted_node]) (fun _ _ => None) (fun _ => 1)
              (fun _ nodeID _ cost => Ok (nodeID, tinybar cost))
              (fun _ q _ => (q, Ok 30)) (fun resp => resp)
              (fun _ => tt) (fun _ => Ok tt)
              (scripted_client 100) scripted_operator (mkState fresh_query [])
              eq_refl eq_refl) as (new & Hsent & _).
  exists new. split; [exact Hsent|].
  apply (f_equal (@length _)) in Hsent. exact (eq_sym Hsent).
Defined.

Lemma explicit_payment_bypasses_ceiling_witness :
  sent (AccountID * Z) Z
    (fst (scripted_account_Execute 30 (Some (scripted_client 100)) (mkState prepaid_query [])))
  = [mkSentRequest PaidQuery [(scripted_node, 500)]].
Proof.
  exact (proj1 (proj2 (explicit_payment_bypasses_ceiling (AccountID * Z) Z Z unit unit 0
                         (fun _ => Ok [scripted_node]) (fun _ _ => None) (fun _ => 1)
                         (fun _ nodeID _ cost => Ok (nodeID, tinybar cost))
                         (fun _ q _ => (q, Ok 30)) (fun resp => resp)
                         (fun _ => tt) (fun _ => Ok tt)
                         (scripted_client 100) scripted_operator (mkState prepaid_query [])
                         _ eq_refl (fun H => Z.neq_sym _ _ (Z.lt_neq 0 500 eq_refl) H) eq_refl)
                  [(scripted_node, 500)] eq_refl)).
Defined.

Lemma SetMaxBackoff_needs_minBackoff_witness :
  SetMaxBackoff _ _ (8 * Second) fresh_query = Panicked NilDereference.
Proof.
  refine (proj1 (SetMaxBackoff_needs_minBackoff _ _ (8 * Second) fresh_query eq_refl _)).
  unfold Second. lia.
Defined.

End AccountInfo.
